(** * biotech-digest: the ingestion / filter / dedup / render pipeline

    A shallow embedding of [scripts/biotech_digest.py] and the properties
    its specification states about it.

    Conventions of the embedding:
    - a Python [str] is a list of Unicode code points ([N]); [len] is
      [length], so a character outside ASCII counts for one;
    - [bytes] is a list of octets ([N] below 256);
    - code that can raise returns a [result];
    - an insertion-ordered [dict] is an association list;
    - [hashlib.sha256] is SHA-256 (FIPS 180-4), written out on 32-bit words
      held in [N];
    - a compiled regular expression is known by its [search] method;
      [html.unescape] and [feedparser.parse] are taken as given functions. *)

From Stdlib Require Import String Ascii.
From Stdlib Require Import NArith ZArith Bool Lia List.
From Stdlib Require Import Sorted Permutation.
Import ListNotations.

Set Implicit Arguments.

(* ===================================================================== *)
(** ** Python values used by the script *)
(* ===================================================================== *)

Module Py.

(** A character is a code point, a [str] a sequence of them. *)
Definition char := N.
Definition str := list char.

(** An ASCII literal of the source, as a [str]. *)
Definition lit (s : string) : str :=
  List.map (fun a => N_of_ascii a) (list_ascii_of_string s).

Definition str_eqb (a b : str) : bool :=
  if list_eq_dec N.eq_dec a b then true else false.

(** Exceptions the modelled code can meet. *)
Inductive exn : Type :=
| AttributeError
| UnicodeEncodeError.

Inductive result (A : Type) : Type :=
| Ok (a : A)
| Raise (e : exn).

Arguments Ok {A} a.
Arguments Raise {A} e.

Definition bind {A B} (c : result A) (k : A -> result B) : result B :=
  match c with
  | Ok a => k a
  | Raise e => Raise e
  end.

(** [for x in l: s = body(s, x)], stopping at the first exception. *)
Fixpoint foldM {S X} (body : S -> X -> result S) (l : list X) (s : S)
  : result S :=
  match l with
  | [] => Ok s
  | x :: l' => bind (body s x) (foldM body l')
  end.

(** [v or ""] for [v] a [str] or [None]: the empty string is falsy too. *)
Definition or_empty (v : option str) : str :=
  match v with
  | Some s => s
  | None => []
  end.

(** [a or b] on two strings. *)
Definition str_or (a b : str) : str :=
  match a with
  | [] => b
  | _ => a
  end.

(** [x in l] for a list of strings. *)
Definition contains (x : str) (l : list str) : bool :=
  existsb (str_eqb x) l.

(** [str.isspace] of one character: the Unicode White_Space set as
    CPython's [_PyUnicode_IsWhitespace] has it. *)
Definition isspace (c : char) : bool :=
  ((9 <=? c) && (c <=? 13) || (28 <=? c) && (c <=? 32)
   || (c =? 133) || (c =? 160) || (c =? 5760)
   || (8192 <=? c) && (c <=? 8202)
   || (c =? 8232) || (c =? 8233) || (c =? 8239) || (c =? 8287)
   || (c =? 12288))%N.

(** [s.lstrip()], [s.rstrip()], [s.strip()]. *)
Fixpoint lstrip (s : str) : str :=
  match s with
  | [] => []
  | c :: s' => if isspace c then lstrip s' else s
  end.

Definition rstrip (s : str) : str := rev (lstrip (rev s)).

Definition strip (s : str) : str := rstrip (lstrip s).

(** [sep.join(lines)]. *)
Fixpoint join (sep : str) (lines : list str) : str :=
  match lines with
  | [] => []
  | [l] => l
  | l :: rest => l ++ sep ++ join sep rest
  end.

(** [l[i:]] with Python's treatment of a negative or too large start. *)
Definition slice_from {A} (l : list A) (i : Z) : list A :=
  let n := Z.of_nat (length l) in
  let start := if (i <? 0)%Z then Z.max (n + i) 0 else Z.min i n in
  skipn (Z.to_nat start) l.

(** [l[:j]] likewise. *)
Definition slice_to {A} (l : list A) (j : Z) : list A :=
  let n := Z.of_nat (length l) in
  let stop := if (j <? 0)%Z then Z.max (n + j) 0 else Z.min j n in
  firstn (Z.to_nat stop) l.

(** [str(n)] for a non-negative [int]. *)
Fixpoint digits (u : Decimal.uint) : str :=
  match u with
  | Decimal.Nil => []
  | Decimal.D0 u => 48%N :: digits u
  | Decimal.D1 u => 49%N :: digits u
  | Decimal.D2 u => 50%N :: digits u
  | Decimal.D3 u => 51%N :: digits u
  | Decimal.D4 u => 52%N :: digits u
  | Decimal.D5 u => 53%N :: digits u
  | Decimal.D6 u => 54%N :: digits u
  | Decimal.D7 u => 55%N :: digits u
  | Decimal.D8 u => 56%N :: digits u
  | Decimal.D9 u => 57%N :: digits u
  end.

Definition str_of_nat (n : nat) : str := digits (Nat.to_uint n).

(** Comparison of two strings, as [<] on [str] does it: code point by code
    point, a proper prefix being smaller. *)
Fixpoint str_compare (a b : str) : comparison :=
  match a, b with
  | [], [] => Eq
  | [], _ :: _ => Lt
  | _ :: _, [] => Gt
  | x :: a', y :: b' =>
      match N.compare x y with
      | Eq => str_compare a' b'
      | c => c
      end
  end.

Definition str_ltb (a b : str) : bool :=
  match str_compare a b with Lt => true | _ => false end.

Definition str_lt (a b : str) : Prop := str_compare a b = Lt.

(** [s.encode()]: UTF-8. A lone surrogate cannot be encoded; a number above
    U+10FFFF is no character at all and is refused the same way. *)
Definition encode_char (c : char) : result (list N) :=
  (if c <? 128 then Ok [c]
   else if c <? 2048 then Ok [192 + c / 64; 128 + c mod 64]
   else if (55296 <=? c) && (c <=? 57343) then Raise UnicodeEncodeError
   else if c <? 65536 then
     Ok [224 + c / 4096; 128 + (c / 64) mod 64; 128 + c mod 64]
   else if c <? 1114112 then
     Ok [240 + c / 262144; 128 + (c / 4096) mod 64;
         128 + (c / 64) mod 64; 128 + c mod 64]
   else Raise UnicodeEncodeError)%N.

Fixpoint encode (s : str) : result (list N) :=
  match s with
  | [] => Ok []
  | c :: s' =>
      bind (encode_char c) (fun bs =>
      bind (encode s') (fun rest => Ok (bs ++ rest)))
  end.

End Py.

Export Py.

Declare Scope py_scope.
Delimit Scope py_scope with py.
Notation "x <- c ;; k" := (bind c (fun x => k))
  (at level 61, c at next level, right associativity) : py_scope.
Open Scope py_scope.

(* ===================================================================== *)
(** ** hashlib.sha256 *)
(* ===================================================================== *)

Module SHA256.

Local Open Scope N_scope.

Definition w32 (x : N) : N := x mod 4294967296.

Definition add32 (x y : N) : N := w32 (x + y).

Definition rotr (n x : N) : N :=
  N.lor (N.shiftr x n) (w32 (N.shiftl x (32 - n))).

Definition Ch (x y z : N) : N :=
  N.lxor (N.land x y) (N.land (N.lxor x 4294967295) z).

Definition Maj (x y z : N) : N :=
  N.lxor (N.lxor (N.land x y) (N.land x z)) (N.land y z).

Definition Sigma0 (x : N) : N :=
  N.lxor (N.lxor (rotr 2 x) (rotr 13 x)) (rotr 22 x).

Definition Sigma1 (x : N) : N :=
  N.lxor (N.lxor (rotr 6 x) (rotr 11 x)) (rotr 25 x).

Definition sigma0 (x : N) : N :=
  N.lxor (N.lxor (rotr 7 x) (rotr 18 x)) (N.shiftr x 3).

Definition sigma1 (x : N) : N :=
  N.lxor (N.lxor (rotr 17 x) (rotr 19 x)) (N.shiftr x 10).

(** The first 64 primes. *)
Definition is_prime (n : nat) : bool :=
  forallb (fun d => negb (Nat.eqb (Nat.modulo n d) 0)) (seq 2 (n - 2)).

Definition primes : list N :=
  List.map N.of_nat (filter is_prime (seq 2 310)).

(** The integer cube root, bit by bit from bit [k] down. *)
Fixpoint cbrt_from (k : nat) (n r : N) : N :=
  match k with
  | O => r
  | S k' =>
      let r' := r + 2 ^ N.of_nat k' in
      cbrt_from k' n (if r' * r' * r' <=? n then r' else r)
  end.

(** The round constants: the first 32 bits of the fractional part of the
    cube root of each prime. *)
Definition K : list N :=
  Eval vm_compute in
    List.map (fun p => w32 (cbrt_from 36 (p * 2 ^ 96) 0)) primes.

(** The initial hash value: the same with the square roots of the first
    eight primes. *)
Definition H0 : list N :=
  Eval vm_compute in
    List.map (fun p => w32 (N.sqrt (p * 2 ^ 64))) (firstn 8 primes).

(** Big-endian octets of a number, [k] of them. *)
Fixpoint be_bytes (k : nat) (x : N) : list N :=
  match k with
  | O => []
  | S k' => (N.shiftr x (8 * N.of_nat k')) mod 256 :: be_bytes k' x
  end.

Definition be_word (bs : list N) : N :=
  fold_left (fun acc b => acc * 256 + b) bs 0.

(** The message followed by 0x80, zeros up to 56 modulo 64, and the bit
    length on eight octets. *)
Definition pad (msg : list N) : list N :=
  let len := N.of_nat (length msg) in
  let zeros := (64 - (len + 9) mod 64) mod 64 in
  msg ++ [128] ++ repeat 0 (N.to_nat zeros) ++ be_bytes 8 (8 * len).

(** Cut into pieces of [n] elements, [k] of them. *)
Fixpoint chunks {A} (n k : nat) (l : list A) : list (list A) :=
  match k with
  | O => []
  | S k' => firstn n l :: chunks n k' (skipn n l)
  end.

(** The message schedule: [w] holds the words so far, newest first. *)
Fixpoint schedule (k : nat) (w : list N) : list N :=
  match k with
  | O => w
  | S k' =>
      let x := add32 (add32 (sigma1 (nth 1 w 0)) (nth 6 w 0))
                     (add32 (sigma0 (nth 14 w 0)) (nth 15 w 0)) in
      schedule k' (x :: w)
  end.

Record regs : Type := Regs { ra : N; rb : N; rc : N; rd : N;
                             re : N; rf : N; rg : N; rh : N }.

Definition round (r : regs) (kw : N * N) : regs :=
  let t1 := add32 (add32 (add32 (rh r) (Sigma1 (re r)))
                         (add32 (Ch (re r) (rf r) (rg r)) (fst kw)))
                  (snd kw) in
  let t2 := add32 (Sigma0 (ra r)) (Maj (ra r) (rb r) (rc r)) in
  Regs (add32 t1 t2) (ra r) (rb r) (rc r) (add32 (rd r) t1) (re r) (rf r) (rg r).

Definition regs_of (h : list N) : regs :=
  Regs (nth 0 h 0) (nth 1 h 0) (nth 2 h 0) (nth 3 h 0)
       (nth 4 h 0) (nth 5 h 0) (nth 6 h 0) (nth 7 h 0).

Definition list_of (r : regs) : list N :=
  [ra r; rb r; rc r; rd r; re r; rf r; rg r; rh r].

Definition compress (h : list N) (block : list N) : list N :=
  let w16 := List.map be_word (chunks 4 16 block) in
  let w := rev (schedule 48 (rev w16)) in
  let r := fold_left round (combine K w) (regs_of h) in
  List.map (fun p => add32 (fst p) (snd p)) (combine h (list_of r)).

Definition digest (msg : list N) : list N :=
  let p := pad msg in
  let h := fold_left compress (chunks 64 (length p / 64) p) H0 in
  flat_map (be_bytes 4) h.

Definition hex_digit (d : N) : Py.char :=
  if d <? 10 then 48 + d else 87 + d.

(** [hexdigest()]: two lowercase hexadecimal digits per octet. *)
Definition hexdigest (msg : list N) : Py.str :=
  flat_map (fun b => [hex_digit (b / 16); hex_digit (b mod 16)]) (digest msg).

(** The hash object: [update] appends to what was fed so far. *)
Definition hasher : Type := list N.
Definition new : hasher := [].
Definition update (h : hasher) (data : list N) : hasher := h ++ data.
Definition hexdigest_of (h : hasher) : Py.str := hexdigest h.

End SHA256.

(* ===================================================================== *)
(** ** The script *)
(* ===================================================================== *)

Definition nl : str := [10%N].
Definition lt_sign : char := 60%N.
Definition gt_sign : char := 62%N.
Definition em_dash : char := 8212%N.
Definition ellipsis : char := 8230%N.

(** *** [re.sub("<[^<]+?>", "", text)]

    A match starts at a [<], takes at least one character other than [<]
    and ends at the first [>] after it; a [<] met on the way makes the
    attempt fail. Matches are taken leftmost and do not overlap. *)

(** After the first character of the run: how many characters up to and
    including the closing [>]. *)
Fixpoint tag_rest (s : str) : option nat :=
  match s with
  | [] => None
  | c :: s' =>
      if (c =? gt_sign)%N then Some 1
      else if (c =? lt_sign)%N then None
      else option_map S (tag_rest s')
  end.

(** [s] is what follows a [<]: the number of characters of the match after
    that [<], when there is one. *)
Definition tag_len (s : str) : option nat :=
  match s with
  | [] => None
  | c :: s' => if (c =? lt_sign)%N then None else option_map S (tag_rest s')
  end.

(** [skip] characters of a match are still to be dropped. *)
Fixpoint sub_tags_from (skip : nat) (s : str) : str :=
  match s with
  | [] => []
  | c :: s' =>
      match skip with
      | S k => sub_tags_from k s'
      | O =>
          if (c =? lt_sign)%N then
            match tag_len s' with
            | Some n => sub_tags_from n s'
            | None => c :: sub_tags_from 0 s'
            end
          else c :: sub_tags_from 0 s'
      end
  end.

Definition sub_tags (text : str) : str := sub_tags_from 0 text.

(** *** Data *)

(** A compiled pattern [re.compile(k, re.I)], known by its [search]. *)
Record Pattern : Type := { search : str -> bool }.

(** A feedparser entry: each attribute is there or not. *)
Record Entry : Type := {
  e_title : option str;
  e_link : option str;
  e_summary : option str;
  e_description : option str;
  e_published : option str;
  e_updated : option str
}.

(** One element of [feeds] in sources.yaml. *)
Record Feed : Type := { f_name : str; f_url : str }.

(** The dict appended to [collected]. *)
Record Item : Type := {
  source : str;
  title : str;
  link : str;
  summary : str;
  published : str
}.

(** The content of seen.json. *)
Record Seen : Type := { hashes : list str; max_len : Z }.

(** [e.attr]: raises when the attribute is missing. *)
Definition getattr2 (field : option str) : result str :=
  match field with
  | Some v => Ok v
  | None => Raise AttributeError
  end.

(** [getattr(e, attr, default)]. *)
Definition getattr3 (field : option str) (default : str) : str :=
  match getattr2 field with
  | Ok v => v
  | Raise _ => default
  end.

(** *** load_seen, save_seen: the file is there or not *)

Definition load_seen (file : option Seen) : Seen :=
  match file with
  | Some state => state
  | None => {| hashes := []; max_len := 2000 |}
  end.

Definition save_seen (state : Seen) : option Seen := Some state.

(** *** hash_item *)

Definition hash_item (title link : option str) : result str :=
  let h := SHA256.new in
  t <- encode (or_empty title);;
  let h := SHA256.update h t in
  l <- encode (or_empty link);;
  let h := SHA256.update h l in
  Ok (SHA256.hexdigest_of h).

(** *** matches_keywords *)

Definition matches_keywords (title summary : option str)
    (kw_regexes : list Pattern) : bool :=
  let hay := or_empty title ++ nl ++ or_empty summary in
  existsb (fun k => search k hay) kw_regexes.

(** *** render_digest *)

(** [by_source.setdefault(k, []).append(it)]. *)
Fixpoint setdefault_append (by_source : list (str * list Item))
    (k : str) (it : Item) : list (str * list Item) :=
  match by_source with
  | [] => [(k, [it])]
  | (k', arr) :: rest =>
      if str_eqb k' k then (k', arr ++ [it]) :: rest
      else (k', arr) :: setdefault_append rest k it
  end.

Definition group_by_source (items : list Item) : list (str * list Item) :=
  fold_left (fun d it => setdefault_append d (source it) it) items [].

(** [sorted(by_source.items())]: the pairs are compared on the key; two
    pairs of a dict never have the same key, so the lists are never
    compared. The sort is stable. *)
Fixpoint insert_sorted (x : str * list Item) (l : list (str * list Item))
  : list (str * list Item) :=
  match l with
  | [] => [x]
  | y :: l' =>
      if str_ltb (fst y) (fst x) then y :: insert_sorted x l' else x :: l
  end.

Definition sorted_items (by_source : list (str * list Item))
  : list (str * list Item) :=
  fold_right insert_sorted [] by_source.

Definition heading (date_str : str) : str :=
  lit "# Biotech Daily Digest " ++ [em_dash] ++ lit " " ++ date_str.

Definition count_line (n m : nat) : str :=
  lit "**" ++ str_of_nat n ++ lit " items from " ++ str_of_nat m
    ++ lit " sources**" ++ nl.

Definition plural (count : nat) : str :=
  if Nat.eqb count 1 then lit "" else lit "s".

Definition breakdown_line (sc : str * nat) : str :=
  lit "- " ++ fst sc ++ lit ": " ++ str_of_nat (snd sc) ++ lit " item"
    ++ plural (snd sc).

Definition entry_line (it : Item) : str :=
  let title := str_or (title it) (lit "(untitled)") in
  let link := str_or (link it) (lit "") in
  let summary := str_or (summary it) (lit "") in
  let pub := published it in
  lit "- **[" ++ title ++ lit "](" ++ link ++ lit ")**  " ++ nl
    ++ lit "  _" ++ pub ++ lit "_  " ++ nl
    ++ lit "  " ++ summary ++ nl.

Definition section_lines (g : str * list Item) : list str :=
  (nl ++ lit "## " ++ fst g ++ nl) :: List.map entry_line (snd g).

Definition source_counts (by_source : list (str * list Item))
  : list (str * nat) :=
  List.map (fun g => (fst g, length (snd g))) (sorted_items by_source).

Definition digest_lines (date_str : str) (items : list Item) : list str :=
  let lines := [heading date_str ++ nl] in
  let by_source := group_by_source items in
  let lines := lines ++ [count_line (length items) (length by_source)] in
  let lines := lines ++ [lit "## Summary by Source" ++ nl] in
  let lines := lines ++ List.map breakdown_line (source_counts by_source) in
  let lines := lines ++ [lit ""] in
  lines ++ flat_map section_lines (sorted_items by_source).

Definition render_digest (date_str : str) (items : list Item) : str :=
  match items with
  | [] => heading date_str ++ nl ++ nl ++ lit "_No matching items today._" ++ nl
  | _ => strip (join nl (digest_lines date_str items)) ++ nl
  end.

Section Script.

(** [html.unescape] and [feedparser.parse(url).entries]. *)
Variable unescape : str -> str.
Variable parse : str -> list Entry.

(** *** summarize *)

Definition clean (text : str) : str := strip (unescape (sub_tags text)).

Definition summarize (text : str) (max_chars : Z) : str :=
  match text with
  | [] => lit ""
  | _ =>
      let txt := clean text in
      if (Z.of_nat (length txt) <=? max_chars)%Z then txt
      else rstrip (slice_to txt (max_chars - 1)) ++ [ellipsis]
  end.

(** *** main *)

(** Lines 108-111: the four values read from an entry. *)
Definition extract (e : Entry) : result (str * str * str * str) :=
  let title := getattr3 (e_title e) (lit "") in
  let link := getattr3 (e_link e) (lit "") in
  let summary :=
    str_or (getattr3 (e_summary e) (lit "")) (getattr3 (e_description e) (lit "")) in
  let pub :=
    str_or (getattr3 (e_published e) (lit "")) (getattr3 (e_updated e) (lit "")) in
  Ok (title, link, summary, pub).

(** The state of the loops: [collected] and [seen["hashes"]]. *)
Definition loop_state : Type := (list Item * list str)%type.

(** Lines 108-124: the body of the inner loop. *)
Definition process_entry (kw : list Pattern) (name : str)
    (st : loop_state) (e : Entry) : result loop_state :=
  let '(collected, seen_hashes) := st in
  x <- extract e;;
  let '(title, link, summary, pub) := x in
  item_hash <- hash_item (Some title) (Some link);;
  if contains item_hash seen_hashes then Ok st
  else if negb (Nat.eqb (length kw) 0)
          && negb (matches_keywords (Some title) (Some summary) kw)
  then Ok st
  else
    Ok (collected ++ [{| source := name; title := title; link := link;
                         summary := summarize summary 320;
                         published := pub |}],
        seen_hashes ++ [item_hash]).

(** Lines 105-124. *)
Definition process_feed (kw : list Pattern) (st : loop_state) (f : Feed)
  : result loop_state :=
  foldM (process_entry kw (f_name f)) (parse (f_url f)) st.

Definition collect (feeds : list Feed) (kw : list Pattern)
    (seen_hashes : list str) : result loop_state :=
  foldM (process_feed kw) feeds ([], seen_hashes).

(** Lines 127-128: keep the seen list capped. *)
Definition cap (seen : Seen) : Seen :=
  if (Z.of_nat (length (hashes seen)) >? max_len seen)%Z
  then {| hashes := slice_from (hashes seen) (- max_len seen);
          max_len := max_len seen |}
  else seen.

(** What a run leaves: the digest text, the state written to seen.json and
    the items collected. *)
Record Outcome : Type := {
  digest_md : str;
  saved : option Seen;
  collected_items : list Item
}.

Definition main (today : str) (feeds : list Feed) (kw : list Pattern)
    (seen_file : option Seen) : result Outcome :=
  let seen := load_seen seen_file in
  st <- collect feeds kw (hashes seen);;
  let '(collected, seen_hashes) := st in
  let seen := cap {| hashes := seen_hashes; max_len := max_len seen |} in
  let digest_md := render_digest today collected in
  Ok {| digest_md := digest_md; saved := save_seen seen;
        collected_items := collected |}.

End Script.

(** The values [main] reads from an entry. *)
Definition raw_title (e : Entry) : str := or_empty (e_title e).
Definition raw_link (e : Entry) : str := or_empty (e_link e).
Definition raw_summary (e : Entry) : str :=
  str_or (or_empty (e_summary e)) (or_empty (e_description e)).
Definition raw_published (e : Entry) : str :=
  str_or (or_empty (e_published e)) (or_empty (e_updated e)).

(** The fingerprint [main] computes for an entry (line 112). *)
Definition fingerprint (e : Entry) : result str :=
  hash_item (Some (raw_title e)) (Some (raw_link e)).

(** The test of line 115: there are keywords and none matches. *)
Definition filtered_out (kw : list Pattern) (e : Entry) : bool :=
  negb (Nat.eqb (length kw) 0)
  && negb (matches_keywords (Some (raw_title e)) (Some (raw_summary e)) kw).

(** The dict of lines 117-123. *)
Definition item_of (unescape : str -> str) (name : str) (e : Entry) : Item :=
  {| source := name; title := raw_title e; link := raw_link e;
     summary := summarize unescape (raw_summary e) 320;
     published := raw_published e |}.

(** The fingerprint of a collected item: its title and link are the raw
    ones. *)
Definition item_fingerprint (it : Item) : result str :=
  hash_item (Some (title it)) (Some (link it)).

(** The items of source [k] among [items], in their order. *)
Definition of_source (k : str) (items : list Item) : list Item :=
  filter (fun it => str_eqb (source it) k) items.

(** Two entries of [by_source] compared on their keys. *)
Definition key_lt (a b : str * list Item) : Prop := str_lt (fst a) (fst b).

Definition str_eq_dec : forall a b : str, {a = b} + {a <> b} :=
  list_eq_dec N.eq_dec.

(** The source names that occur in [items], each once. *)
Definition distinct_sources (items : list Item) : list str :=
  nodup str_eq_dec (List.map source items).

(** A run went from [st] to [st']: items were appended to [collected] and
    their fingerprints, in the same order, to the seen list. *)
Definition extends (st st' : loop_state) : Prop :=
  exists new fps,
    fst st' = fst st ++ new
    /\ snd st' = snd st ++ fps
    /\ Forall2 (fun it h => item_fingerprint it = Ok h) new fps.

(** With the seen list [hs], entry [e] is skipped: its fingerprint is
    there, or the keywords reject it. *)
Definition skipped (kw : list Pattern) (hs : list str) (e : Entry) : Prop :=
  exists h, fingerprint e = Ok h /\ (In h hs \/ filtered_out kw e = true).

(* ===================================================================== *)
(** ** Sample data: a literal keyword, two feeds *)
(* ===================================================================== *)

Module Sample.

Definition lower_ascii (c : char) : char :=
  if ((65 <=? c) && (c <=? 90))%N then (c + 32)%N else c.

Fixpoint starts_with (p s : str) : bool :=
  match p, s with
  | [], _ => true
  | _ :: _, [] => false
  | x :: p', y :: s' => (x =? y)%N && starts_with p' s'
  end.

Fixpoint find (p s : str) : bool :=
  starts_with p s
  || match s with
     | [] => false
     | _ :: s' => find p s'
     end.

(** [re.compile(k, re.I)] for a keyword [k] of digits and ASCII letters
    other than i, k and s (the ASCII letters that also match a character
    outside ASCII when case is ignored). *)
Definition keyword (k : str) : Pattern :=
  {| search := fun hay =>
       find (List.map lower_ascii k) (List.map lower_ascii hay) |}.

Definition entry (t l s : string) : Entry :=
  {| e_title := Some (lit t); e_link := Some (lit l);
     e_summary := Some (lit s); e_description := None;
     e_published := None; e_updated := None |}.

Definition bare : Entry :=
  {| e_title := None; e_link := None; e_summary := None;
     e_description := None; e_published := None; e_updated := None |}.

Definition lab_news : Feed := {| f_name := lit "LabNews"; f_url := lit "http://labnews/rss" |}.

(** The feed of the scenario: one entry on qPCR, one unrelated. *)
Definition two_entries (url : str) : list Entry :=
  [entry "New qPCR robot" "http://a" "..."; entry "Unrelated" "http://b" "..."].

(** Four entries without a summary. *)
Definition four_entries (url : str) : list Entry :=
  [entry "A" "http://a" ""; entry "B" "http://b" "";
   entry "C" "http://c" ""; entry "D" "http://d" ""].

Definition item (s t : string) : Item :=
  {| source := lit s; title := lit t; link := lit "http://x";
     summary := lit "text"; published := lit "" |}.

Definition three_items : list Item :=
  [item "Nature" "n1"; item "Cell" "c1"; item "Nature" "n2"].

(** No entity to decode: a stand-in for [html.unescape] on text without
    an ampersand. *)
Definition no_entities (s : str) : str := s.

End Sample.

(* ===================================================================== *)
(** ** The rest of the script: slug, load_config, update_readme, the files *)
(* ===================================================================== *)

(** *** slug *)

(** [re.sub(r"\s+", "-", s)]: every run of whitespace becomes one hyphen.
    [in_run] tells that the character before was whitespace. *)
Fixpoint sub_spaces_from (in_run : bool) (s : str) : str :=
  match s with
  | [] => []
  | c :: s' =>
      if isspace c then
        if in_run then sub_spaces_from true s'
        else 45%N :: sub_spaces_from true s'
      else c :: sub_spaces_from false s'
  end.

Definition sub_spaces (s : str) : str := sub_spaces_from false s.

(** The characters that [re.sub(r"[^a-z0-9\-]", "", s)] keeps. *)
Definition slug_char (c : char) : bool :=
  ((97 <=? c) && (c <=? 122) || (48 <=? c) && (c <=? 57) || (c =? 45))%N.

(** [lower] is [str.lower], whose table is Unicode's. *)
Definition slug (lower : str -> str) (s : str) : str :=
  let s := sub_spaces (lower (strip s)) in
  filter slug_char s.

(** *** load_config *)

(** What [yaml.safe_load] gives for sources.yaml when it is a mapping: the
    keys [keywords] and [feeds] are there or not. *)
Record Yaml : Type := {
  y_keywords : option (list str);
  y_feeds : option (list Feed)
}.

(** How [load_config] can fail: the document is empty, so that [cfg] is
    [None] and has no [get]; or [re.compile] refuses a keyword. *)
Inductive config_error : Type :=
| NoneHasNoGet
| BadPattern (k : str).

(** [cfg.get(key, default)]. *)
Definition dict_get {A} (v : option A) (default : A) : A :=
  match v with
  | Some x => x
  | None => default
  end.

(** [[re.compile(k, re.I) for k in keywords]]; [compile] gives [None] where
    [re.compile] raises. *)
Fixpoint compile_all (compile : str -> option Pattern) (keywords : list str)
  : config_error + list Pattern :=
  match keywords with
  | [] => inr []
  | k :: rest =>
      match compile k with
      | None => inl (BadPattern k)
      | Some p =>
          match compile_all compile rest with
          | inl e => inl e
          | inr ps => inr (p :: ps)
          end
      end
  end.

Definition load_config (compile : str -> option Pattern) (doc : option Yaml)
  : config_error + (list Feed * list Pattern) :=
  match doc with
  | None => inl NoneHasNoGet
  | Some cfg =>
      match compile_all compile (dict_get (y_keywords cfg) []) with
      | inl e => inl e
      | inr kw =>
          let feeds := dict_get (y_feeds cfg) [] in
          inr (feeds, kw)
      end
  end.

(** *** The files the script touches *)

Record World : Type := {
  digest_dir : bool;             (* digest/ exists *)
  data_dir : bool;               (* data/ exists *)
  seen_json : option Seen;       (* data/seen.json *)
  digests : str -> option str;   (* digest/<name> *)
  readme : option str;           (* README.md *)
  stdout : list str              (* the lines printed *)
}.

(** [DIGEST_DIR.mkdir(parents=True, exist_ok=True)]. *)
Definition mkdir_digest (w : World) : World :=
  {| digest_dir := true; data_dir := data_dir w; seen_json := seen_json w;
     digests := digests w; readme := readme w; stdout := stdout w |}.

(** [DATA_DIR.mkdir(parents=True, exist_ok=True)], in [load_seen]. *)
Definition mkdir_data (w : World) : World :=
  {| digest_dir := digest_dir w; data_dir := true; seen_json := seen_json w;
     digests := digests w; readme := readme w; stdout := stdout w |}.

(** The file [DIGEST_DIR / name] with [text] as its content. *)
Definition write_digest (name text : str) (w : World) : World :=
  {| digest_dir := digest_dir w; data_dir := data_dir w;
     seen_json := seen_json w;
     digests := fun p => if str_eqb p name then Some text else digests w p;
     readme := readme w; stdout := stdout w |}.

(** [(DIGEST_DIR / name).write_text(text, encoding="utf-8")]: the file is
    opened for writing, which makes it or empties it, then the text is
    encoded and written. A text that cannot be encoded raises and leaves the
    file empty. *)
Definition write_text (name text : str) (w : World) : World * result unit :=
  let w := write_digest name (lit "") w in
  match encode text with
  | Ok _ => (write_digest name text w, Ok tt)
  | Raise e => (w, Raise e)
  end.

(** [save_seen(seen)], on the file. [json.dump] writes ASCII only. *)
Definition write_seen (state : option Seen) (w : World) : World :=
  {| digest_dir := digest_dir w; data_dir := data_dir w; seen_json := state;
     digests := digests w; readme := readme w; stdout := stdout w |}.

(** *** update_readme *)

(** The text written is ASCII apart from the date. *)
Definition update_readme (date_str : str) (w : World) : World :=
  let digest_path := lit "digest/" ++ date_str ++ lit ".md" in
  let link := lit "[" ++ date_str ++ lit " Digest](" ++ digest_path ++ lit ")" in
  let header := lit "# Biotech Daily Digest" ++ nl in
  let template :=
    header ++ nl ++ lit "- Latest: " ++ link ++ nl ++ nl
      ++ lit "This repo auto-collects biotech news/preprints that match our interests "
      ++ lit "(lab automation, qPCR/ELISA, robotics, organ-on-chip, etc.)." ++ nl in
  {| digest_dir := digest_dir w; data_dir := data_dir w;
     seen_json := seen_json w; digests := digests w;
     readme := Some template; stdout := stdout w |}.

Definition print (line : str) (w : World) : World :=
  {| digest_dir := digest_dir w; data_dir := data_dir w;
     seen_json := seen_json w; digests := digests w;
     readme := readme w; stdout := stdout w ++ [line] |}.

(** *** main, with its files *)

(** [datetime.date]: a year, a month and a day. *)
Record Date : Type := { year : nat; month : nat; day : nat }.

(** ["%04d"] and ["%02d"]: zeros in front up to the width. *)
Definition zero_pad (width n : nat) : str :=
  repeat 48%N (width - length (str_of_nat n)) ++ str_of_nat n.

(** [date.isoformat()]. *)
Definition isoformat (d : Date) : str :=
  zero_pad 4 (year d) ++ lit "-" ++ zero_pad 2 (month d) ++ lit "-"
    ++ zero_pad 2 (day d).

(** How a run ends: well, or with an exception from [load_config], from
    the loops, or from writing the digest. *)
Inductive Exit : Type :=
| Done
| ConfigFailed (e : config_error)
| Raised (e : exn)
| WriteFailed (e : exn).

(** Lines 99-134 in the order of the source: the date, the digest
    directory, the configuration, the seen file (and the data directory),
    the loops and the cap, and only then the digest, the seen file, the
    README and the printed line. An exception ends the run where it is
    raised. *)
Definition script (unescape : str -> str) (parse : str -> list Entry)
    (compile : str -> option Pattern) (date : Date) (doc : option Yaml)
    (w : World) : World * Exit :=
  let today := isoformat date in
  let w := mkdir_digest w in
  match load_config compile doc with
  | inl e => (w, ConfigFailed e)
  | inr (feeds, kw) =>
      let w := mkdir_data w in
      match main unescape parse today feeds kw (seen_json w) with
      | Raise e => (w, Raised e)
      | Ok o =>
          match write_text (today ++ lit ".md") (digest_md o) w with
          | (w, Raise e) => (w, WriteFailed e)
          | (w, Ok _) =>
              let w := write_seen (saved o) w in
              let w := update_readme today w in
              let w :=
                print (lit "Wrote digest for " ++ today ++ lit " with "
                         ++ str_of_nat (length (collected_items o))
                         ++ lit " items.") w in
              (w, Done)
          end
      end
  end.

(** *** Predicates of the statements *)

(** A character [encode] accepts: a code point that is not a surrogate. *)
Definition encodable (c : char) : bool :=
  ((c <? 1114112) && negb ((55296 <=? c) && (c <=? 57343)))%N.

(** A lowercase hexadecimal digit. *)
Definition hex_char (c : char) : bool :=
  ((48 <=? c) && (c <=? 57) || (97 <=? c) && (c <=? 102))%N.

(** No whitespace at either end. *)
Definition trimmed (s : str) : Prop := lstrip s = s /\ rstrip s = s.

(** The text of a digest without items. *)
Definition empty_digest (date_str : str) : str :=
  heading date_str ++ nl ++ nl ++ lit "_No matching items today._" ++ nl.

(** A line that opens a detail section: a newline, then [## ]. *)
Definition is_section_header (line : str) : bool :=
  match line with
  | 10%N :: 35%N :: 35%N :: 32%N :: _ => true
  | _ => false
  end.

Module SampleRun.

(** A stand-in for [str.lower] on ASCII text. *)
Definition lower (s : str) : str := List.map Sample.lower_ascii s.

(** [re.compile] of a plain keyword; an unbalanced parenthesis is refused. *)
Definition compile (k : str) : option Pattern :=
  if existsb (fun c => (c =? 40)%N || (c =? 41)%N) k then None
  else Some (Sample.keyword k).

Definition nothing : World :=
  {| digest_dir := false; data_dir := false; seen_json := None;
     digests := fun _ => None; readme := None; stdout := [] |}.

Definition sources : Yaml :=
  {| y_keywords := Some [lit "qPCR"]; y_feeds := Some [Sample.lab_news] |}.

Definition no_keys : Yaml := {| y_keywords := None; y_feeds := None |}.

Definition surrogate_entry (url : str) : list Entry :=
  [{| e_title := Some [55296%N]; e_link := None; e_summary := None;
      e_description := None; e_published := None; e_updated := None |}].

(** An entry whose summary holds a lone surrogate. *)
Definition surrogate_summary (url : str) : list Entry :=
  [{| e_title := Some (lit "qPCR"); e_link := Some (lit "http://t");
      e_summary := Some [55296%N]; e_description := None;
      e_published := None; e_updated := None |}].

Definition new_year : Date := {| year := 2024; month := 1; day := 1 |}.

End SampleRun.

(* ===================================================================== *)
(** ** SHA-256 test vectors *)
(* ===================================================================== *)

Example sha256_empty :
  SHA256.hexdigest [] =
  lit "e3b0c44298fc1c149afbf4c8996fb92427ae41e4649b934ca495991b7852b855".
Proof. vm_compute. reflexivity. Qed.

Example sha256_abc :
  SHA256.hexdigest [97; 98; 99]%N =
  lit "ba7816bf8f01cfea414140de5dae2223b00361a396177a9cb410ff61f20015ad".
Proof. vm_compute. reflexivity. Qed.

(* ===================================================================== *)
(** ** Facts on the Python operations *)
(* ===================================================================== *)

Lemma str_eqb_eq (a b : str) : str_eqb a b = true <-> a = b.
Proof.
  unfold str_eqb. destruct (list_eq_dec N.eq_dec a b); split; congruence.
Qed.

Lemma str_eqb_refl (a : str) : str_eqb a a = true.
Proof. now apply str_eqb_eq. Qed.

Lemma str_eqb_neq (a b : str) : str_eqb a b = false <-> a <> b.
Proof.
  unfold str_eqb. destruct (list_eq_dec N.eq_dec a b); split; congruence.
Qed.

Lemma contains_In (x : str) (l : list str) : contains x l = true <-> In x l.
Proof.
  unfold contains. rewrite existsb_exists. split.
  - intros [y [Hy E]]. apply str_eqb_eq in E. now subst.
  - intros H. exists x. split; [assumption | apply str_eqb_refl].
Qed.

Lemma lstrip_length (s : str) : length (lstrip s) <= length s.
Proof.
  induction s as [|c s IH]; simpl; [lia|].
  destruct (isspace c); simpl; lia.
Qed.

Lemma rstrip_length (s : str) : length (rstrip s) <= length s.
Proof.
  unfold rstrip. rewrite length_rev.
  pose proof (lstrip_length (rev s)) as H. rewrite length_rev in H. exact H.
Qed.

Lemma lstrip_nonspace (c : char) (s : str) :
  isspace c = false -> lstrip (c :: s) = c :: s.
Proof. intros H. simpl. now rewrite H. Qed.

Lemma lstrip_app (a b : str) : lstrip a <> [] -> lstrip (a ++ b) = lstrip a ++ b.
Proof.
  induction a as [|c a IH]; simpl; [congruence|].
  destruct (isspace c); [exact IH | reflexivity].
Qed.

Lemma lstrip_not_nil (s : str) (c : char) :
  In c s -> isspace c = false -> lstrip s <> [].
Proof.
  induction s as [|d s IH]; simpl; [tauto|].
  intros [E | H] Hc.
  - subst d. rewrite Hc. discriminate.
  - destruct (isspace d); [now apply IH | discriminate].
Qed.

Lemma rstrip_not_nil (s : str) (c : char) :
  In c s -> isspace c = false -> rstrip s <> [].
Proof.
  intros Hin Hc E. unfold rstrip in E.
  apply (f_equal (@rev char)) in E. rewrite rev_involutive in E. simpl in E.
  revert E. apply lstrip_not_nil with c; [now apply in_rev in Hin | exact Hc].
Qed.

Lemma rstrip_app (a b : str) : rstrip b <> [] -> rstrip (a ++ b) = a ++ rstrip b.
Proof.
  intros H. unfold rstrip in *. rewrite rev_app_distr, lstrip_app.
  - now rewrite rev_app_distr, rev_involutive.
  - intros E. apply H. now rewrite E.
Qed.

Lemma slice_to_firstn {A} (l : list A) (j : Z) :
  (0 <= j)%Z -> slice_to l j = firstn (Z.to_nat j) l.
Proof.
  intros Hj. unfold slice_to.
  destruct (Z.ltb_spec j 0) as [H | _]; [lia|].
  destruct (Z.min_spec j (Z.of_nat (length l))) as [[Hlt ->] | [Hge ->]].
  - reflexivity.
  - rewrite Nat2Z.id, firstn_all. symmetry. apply firstn_all2. lia.
Qed.

Lemma slice_from_suffix {A} (l : list A) (n : Z) :
  (0 < n)%Z -> slice_from l (- n) = skipn (length l - Z.to_nat n) l.
Proof.
  intros Hn. unfold slice_from.
  destruct (Z.ltb_spec (- n) 0) as [_ | H]; [|lia].
  f_equal. lia.
Qed.

Lemma foldM_app {S X} (body : S -> X -> result S) (a b : list X) (s : S) :
  foldM body (a ++ b) s = bind (foldM body a s) (foldM body b).
Proof.
  revert s. induction a as [|x a IH]; intros s; simpl; [reflexivity|].
  destruct (body s x); simpl; [apply IH | reflexivity].
Qed.

Lemma encode_app (a b : str) :
  encode (a ++ b) =
  (x <- encode a;; y <- encode b;; Ok (x ++ y)).
Proof.
  induction a as [|c a IH]; simpl.
  - destruct (encode b); reflexivity.
  - destruct (encode_char c) as [bs|]; simpl; [|reflexivity].
    rewrite IH. destruct (encode a) as [x|]; simpl; [|reflexivity].
    destruct (encode b) as [y|]; simpl; [|reflexivity].
    now rewrite app_assoc.
Qed.

(* ===================================================================== *)
(** ** summarize *)
(* ===================================================================== *)

Section Summarize.

Variable unescape : str -> str.

Lemma summarize_short (text : str) :
  text <> [] ->
  length (clean unescape text) <= 320 ->
  summarize unescape text 320 = clean unescape text.
Proof.
  intros Hne Hlen. destruct text as [|c text]; [congruence|].
  unfold summarize.
  destruct (Z.leb_spec (Z.of_nat (length (clean unescape (c :: text)))) 320);
    [reflexivity | lia].
Qed.

Lemma summarize_long (text : str) :
  text <> [] ->
  320 < length (clean unescape text) ->
  summarize unescape text 320 =
  rstrip (firstn 319 (clean unescape text)) ++ [ellipsis].
Proof.
  intros Hne Hlen. destruct text as [|c text]; [congruence|].
  unfold summarize.
  destruct (Z.leb_spec (Z.of_nat (length (clean unescape (c :: text)))) 320);
    [lia|].
  rewrite slice_to_firstn by lia. reflexivity.
Qed.

End Summarize.

(** C5. Truncation bound: with the budget of 320 characters that [main]
    passes, the summary is never longer than 320 characters; when the
    cleaned text is longer than 320, the summary is its first 319
    characters, stripped on the right, followed by one ellipsis, so it
    ends in the ellipsis. *)
Theorem summarize_truncation_bound (unescape : str -> str) (text : str) :
  let out := summarize unescape text 320 in
  length out <= 320
  /\ (text <> [] -> 320 < length (clean unescape text) ->
      out = rstrip (firstn 319 (clean unescape text)) ++ [ellipsis]
      /\ last out 0%N = ellipsis)
  /\ (text <> [] -> length (clean unescape text) <= 320 ->
      out = clean unescape text).
Proof.
  cbv zeta. split; [|split].
  - destruct text as [|c text]; [simpl; lia|].
    destruct (Nat.le_gt_cases (length (clean unescape (c :: text))) 320)
      as [Hs | Hl].
    + rewrite summarize_short by (congruence || assumption). exact Hs.
    + rewrite summarize_long by (congruence || assumption).
      rewrite length_app. change (length [ellipsis]) with 1.
      pose proof (rstrip_length (firstn 319 (clean unescape (c :: text)))) as Hr.
      rewrite length_firstn in Hr. lia.
  - intros Hne Hl. rewrite summarize_long by assumption.
    split; [reflexivity | apply last_last].
  - intros Hne Hs. now apply summarize_short.
Qed.

Lemma summarize_truncation_bound_witness :
  let text := repeat 97%N 400 in
  let out := summarize Sample.no_entities text 320 in
  length out <= 320
  /\ out = repeat 97%N 319 ++ [ellipsis]
  /\ last out 0%N = ellipsis.
Proof.
  cbv zeta.
  pose proof (summarize_truncation_bound Sample.no_entities (repeat 97%N 400))
    as [Hlen [Hlong _]].
  split; [exact Hlen|].
  assert (Hne : repeat 97%N 400 <> []) by (vm_compute; discriminate).
  assert (Hl : 320 < length (clean Sample.no_entities (repeat 97%N 400)))
    by (vm_compute; lia).
  destruct (Hlong Hne Hl) as [Hout Hlast].
  split; [|exact Hlast].
  rewrite Hout. vm_compute. reflexivity.
Defined.

(* ===================================================================== *)
(** ** The cap on the seen list *)
(* ===================================================================== *)

Lemma cap_max_len (seen : Seen) : max_len (cap seen) = max_len seen.
Proof.
  unfold cap.
  destruct (Z.of_nat (length (hashes seen)) >? max_len seen)%Z; reflexivity.
Qed.

Lemma cap_hashes (seen : Seen) :
  (0 < max_len seen)%Z ->
  hashes (cap seen) =
  skipn (length (hashes seen) - Z.to_nat (max_len seen)) (hashes seen).
Proof.
  intros Hpos. unfold cap.
  destruct (Z.gtb_spec (Z.of_nat (length (hashes seen))) (max_len seen))
    as [Hgt | Hle]; simpl.
  - now apply slice_from_suffix.
  - replace (length (hashes seen) - Z.to_nat (max_len seen)) with 0 by lia.
    reflexivity.
Qed.

Lemma cap_within (seen : Seen) :
  (Z.of_nat (length (hashes seen)) <= max_len seen)%Z -> cap seen = seen.
Proof.
  intros H. unfold cap.
  destruct (Z.gtb_spec (Z.of_nat (length (hashes seen))) (max_len seen));
    [lia | reflexivity].
Qed.

(** With [max_len] 0 the test fires on any non-empty list, and [l[-0:]] is
    the whole list. *)
Remark cap_zero_keeps_all (l : list str) :
  cap {| hashes := l; max_len := 0 |} = {| hashes := l; max_len := 0 |}.
Proof.
  unfold cap; simpl.
  destruct (Z.of_nat (length l) >? 0)%Z; [|reflexivity].
  unfold slice_from; simpl. rewrite Z.min_l by lia. reflexivity.
Qed.

(** C3. Capacity bound: for any seen list and any positive [max_len], the
    capped list has at most [max_len] entries, and it is the suffix of the
    list holding its [max_len] last entries (all of them when there are
    fewer), in their order. *)
Theorem cap_capacity_bound (seen : Seen) :
  (0 < max_len seen)%Z ->
  let l := hashes seen in
  let c := Z.to_nat (max_len seen) in
  length (hashes (cap seen)) <= c
  /\ length (hashes (cap seen)) = Nat.min (length l) c
  /\ hashes (cap seen) = skipn (length l - c) l
  /\ l = firstn (length l - c) l ++ hashes (cap seen).
Proof.
  intros Hpos l c. subst l c.
  rewrite (cap_hashes seen Hpos), length_skipn, firstn_skipn.
  repeat split; lia.
Qed.

Lemma cap_capacity_bound_witness :
  let A := lit "A" in let B := lit "B" in
  let C := lit "C" in let D := lit "D" in
  hashes (cap {| hashes := [A; B; C; D]; max_len := 3 |}) = [B; C; D]
  /\ length (hashes (cap {| hashes := [A; B; C; D]; max_len := 3 |})) <= 3.
Proof.
  cbv zeta.
  assert (Hpos : (0 < max_len {| hashes := [lit "A"; lit "B"; lit "C"; lit "D"];
                                 max_len := 3 |})%Z) by (simpl; lia).
  destruct (cap_capacity_bound _ Hpos) as [Hlen [_ [Heq _]]].
  split; [rewrite Heq; reflexivity | exact Hlen].
Defined.

(* ===================================================================== *)
(** ** hash_item *)
(* ===================================================================== *)

(** The two [update] calls feed the hash the encoding of the title
    followed by the link. *)
Lemma hash_item_concat (title link : option str) :
  hash_item title link =
  (b <- encode (or_empty title ++ or_empty link);; Ok (SHA256.hexdigest b)).
Proof.
  unfold hash_item. rewrite encode_app.
  destruct (encode (or_empty title)) as [t|]; simpl; [|reflexivity].
  destruct (encode (or_empty link)) as [l|]; simpl; reflexivity.
Qed.




(* ===================================================================== *)
(** ** Reading an entry *)
(* ===================================================================== *)

Lemma getattr3_or_empty (field : option str) :
  getattr3 field (lit "") = or_empty field.
Proof. destruct field; reflexivity. Qed.

Lemma extract_eq (e : Entry) :
  extract e = Ok (raw_title e, raw_link e, raw_summary e, raw_published e).
Proof.
  unfold extract, raw_title, raw_link, raw_summary, raw_published.
  now rewrite !getattr3_or_empty.
Qed.

(** C7. Reading the title, the link, the summary (or else the description)
    and the publication date (or else the update date) of an entry never
    raises, whatever attributes the entry has, and each value is the empty
    string when its attribute (and its fallback) is missing, whatever the
    other attributes are. *)
Theorem extract_total (e : Entry) :
  exists title link summary pub,
    extract e = Ok (title, link, summary, pub)
    /\ (e_title e = None -> title = lit "")
    /\ (e_link e = None -> link = lit "")
    /\ (e_summary e = None -> summary = or_empty (e_description e))
    /\ (e_summary e = None -> e_description e = None -> summary = lit "")
    /\ (e_published e = None -> pub = or_empty (e_updated e))
    /\ (e_published e = None -> e_updated e = None -> pub = lit "").
Proof.
  exists (raw_title e), (raw_link e), (raw_summary e), (raw_published e).
  split; [apply extract_eq|].
  unfold raw_title, raw_link, raw_summary, raw_published.
  repeat split; intros; repeat match goal with H : _ = None |- _ => rewrite H end;
    reflexivity.
Qed.

Lemma extract_total_witness :
  extract Sample.bare = Ok (lit "", lit "", lit "", lit "").
Proof.
  destruct (extract_total Sample.bare)
    as (t & l & s & p & E & Ht & Hl & _ & Hs & _ & Hp).
  rewrite E, Ht, Hl, Hs, Hp; reflexivity.
Defined.

(* ===================================================================== *)
(** ** The loops of main *)
(* ===================================================================== *)

Lemma foldM_fixed {S X} (body : S -> X -> result S) (l : list X) (s : S) :
  (forall x, In x l -> body s x = Ok s) -> foldM body l s = Ok s.
Proof.
  induction l as [|x l IH]; intros H; simpl; [reflexivity|].
  rewrite (H x (or_introl eq_refl)). simpl. apply IH.
  intros y Hy. apply H. now right.
Qed.

Section FoldInvariant.

Variables (S X : Type) (body : S -> X -> result S).
Variable R : S -> S -> Prop.
Hypothesis R_refl : forall s, R s s.
Hypothesis R_trans : forall a b c, R a b -> R b c -> R a c.
Hypothesis R_step : forall s x s', body s x = Ok s' -> R s s'.

Lemma foldM_rel (l : list X) (s s' : S) : foldM body l s = Ok s' -> R s s'.
Proof.
  revert s. induction l as [|x l IH]; intros s; simpl.
  - intros E. injection E as <-. apply R_refl.
  - destruct (body s x) as [s1|] eqn:E1; simpl; [|discriminate].
    intros E. apply R_trans with s1; [now apply R_step with x | now apply IH].
Qed.

Variable P : S -> X -> Prop.
Hypothesis P_mono : forall s s' x, R s s' -> P s x -> P s' x.
Hypothesis P_step : forall s x s', body s x = Ok s' -> P s' x.

Lemma foldM_each (l : list X) (s s' : S) :
  foldM body l s = Ok s' -> forall x, In x l -> P s' x.
Proof.
  revert s. induction l as [|x l IH]; intros s; simpl; [tauto|].
  destruct (body s x) as [s1|] eqn:E1; simpl; [|discriminate].
  intros E y [<- | Hy].
  - apply P_mono with s1; [now apply foldM_rel with l | now apply P_step with s].
  - now apply IH with s1.
Qed.

End FoldInvariant.

Lemma extends_refl (st : loop_state) : extends st st.
Proof. exists [], []. rewrite !app_nil_r. repeat split. constructor. Qed.

Lemma extends_trans (a b c : loop_state) :
  extends a b -> extends b c -> extends a c.
Proof.
  intros (n1 & f1 & Hc1 & Hh1 & F1) (n2 & f2 & Hc2 & Hh2 & F2).
  exists (n1 ++ n2), (f1 ++ f2).
  rewrite Hc2, Hh2, Hc1, Hh1, !app_assoc.
  repeat split. now apply Forall2_app.
Qed.

Lemma extends_incl (a b : loop_state) (h : str) :
  extends a b -> In h (snd a) -> In h (snd b).
Proof.
  intros (n & f & _ & Hh & _) Hin. rewrite Hh. apply in_or_app. now left.
Qed.

Lemma skipped_mono (kw : list Pattern) (a b : loop_state) (e : Entry) :
  extends a b -> skipped kw (snd a) e -> skipped kw (snd b) e.
Proof.
  intros Hab (h & Hh & [Hin | Hf]); exists h; split; trivial.
  - left. now apply extends_incl with a.
  - now right.
Qed.

Section Loops.

Variable unescape : str -> str.
Variable parse : str -> list Entry.
Variable kw : list Pattern.

(** The body of the inner loop, case by case. *)
Lemma process_entry_eq (name : str) (st : loop_state) (e : Entry) :
  process_entry unescape kw name st e =
  (h <- fingerprint e;;
   if contains h (snd st) then Ok st
   else if filtered_out kw e then Ok st
   else Ok (fst st ++ [item_of unescape name e], snd st ++ [h])).
Proof.
  destruct st as [collected seen_hashes].
  unfold process_entry. rewrite extract_eq. reflexivity.
Qed.

Lemma process_entry_extends (name : str) (st : loop_state) (e : Entry)
    (st' : loop_state) :
  process_entry unescape kw name st e = Ok st' -> extends st st'.
Proof.
  rewrite process_entry_eq.
  destruct (fingerprint e) as [h|] eqn:Eh; simpl; [|discriminate].
  destruct (contains h (snd st));
    [intros E; injection E as <-; apply extends_refl|].
  destruct (filtered_out kw e);
    [intros E; injection E as <-; apply extends_refl|].
  intros E; injection E as <-.
  exists [item_of unescape name e], [h]. repeat split.
  constructor; [exact Eh | constructor].
Qed.

Lemma process_entry_skipped (name : str) (st : loop_state) (e : Entry)
    (st' : loop_state) :
  process_entry unescape kw name st e = Ok st' -> skipped kw (snd st') e.
Proof.
  rewrite process_entry_eq.
  destruct (fingerprint e) as [h|] eqn:Eh; simpl; [|discriminate].
  destruct (contains h (snd st)) eqn:Ec.
  - intros E; injection E as <-. exists h. split; trivial.
    left. now apply contains_In.
  - destruct (filtered_out kw e) eqn:Ef.
    + intros E; injection E as <-. exists h. split; trivial. now right.
    + intros E; injection E as <-. exists h. split; trivial.
      left. simpl. apply in_or_app. right. now left.
Qed.

Lemma process_entry_again (name : str) (st : loop_state) (e : Entry) :
  skipped kw (snd st) e -> process_entry unescape kw name st e = Ok st.
Proof.
  intros (h & Eh & Hs). rewrite process_entry_eq, Eh. simpl.
  destruct (contains h (snd st)) eqn:Ec; [reflexivity|].
  destruct Hs as [Hin | Hf].
  - apply contains_In in Hin. congruence.
  - now rewrite Hf.
Qed.

Lemma process_feed_extends (st : loop_state) (f : Feed) (st' : loop_state) :
  process_feed unescape parse kw st f = Ok st' -> extends st st'.
Proof.
  unfold process_feed.
  apply foldM_rel;
    [apply extends_refl | apply extends_trans | apply process_entry_extends].
Qed.

Lemma process_feed_skipped (st : loop_state) (f : Feed) (st' : loop_state) :
  process_feed unescape parse kw st f = Ok st' ->
  forall e, In e (parse (f_url f)) -> skipped kw (snd st') e.
Proof.
  unfold process_feed.
  apply foldM_each with (R := extends) (P := fun s e => skipped kw (snd s) e).
  - apply extends_refl.
  - apply extends_trans.
  - apply process_entry_extends.
  - intros s s' e. apply skipped_mono.
  - apply process_entry_skipped.
Qed.

Lemma process_feed_again (st : loop_state) (f : Feed) :
  (forall e, In e (parse (f_url f)) -> skipped kw (snd st) e) ->
  process_feed unescape parse kw st f = Ok st.
Proof.
  intros H. unfold process_feed. apply foldM_fixed.
  intros e He. apply process_entry_again. now apply H.
Qed.

(** What the two loops do to [collected] and the seen list. *)
Lemma collect_extends (feeds : list Feed) (hs : list str) (st' : loop_state) :
  collect unescape parse feeds kw hs = Ok st' -> extends ([], hs) st'.
Proof.
  unfold collect.
  apply foldM_rel;
    [apply extends_refl | apply extends_trans | apply process_feed_extends].
Qed.

(** After the loops every entry of every feed is one the loops would skip. *)
Lemma collect_skipped (feeds : list Feed) (hs : list str) (st' : loop_state) :
  collect unescape parse feeds kw hs = Ok st' ->
  forall f, In f feeds ->
  forall e, In e (parse (f_url f)) -> skipped kw (snd st') e.
Proof.
  unfold collect. intros H f Hf.
  revert H f Hf.
  apply (@foldM_each _ _ (process_feed unescape parse kw) extends
           extends_refl extends_trans process_feed_extends
           (fun s f => forall e, In e (parse (f_url f)) -> skipped kw (snd s) e)).
  - intros s s' f Hs H e He. apply skipped_mono with s; auto.
  - apply process_feed_skipped.
Qed.

(** Loops started on a seen list that skips every entry collect nothing. *)
Lemma collect_again (feeds : list Feed) (hs : list str) :
  (forall f, In f feeds ->
   forall e, In e (parse (f_url f)) -> skipped kw hs e) ->
  collect unescape parse feeds kw hs = Ok ([], hs).
Proof.
  intros H. unfold collect. apply foldM_fixed.
  intros f Hf. apply process_feed_again. now apply H.
Qed.

End Loops.

(* ===================================================================== *)
(** ** main *)
(* ===================================================================== *)

Section Main.

Variable unescape : str -> str.
Variable parse : str -> list Entry.

Lemma main_ok (today : str) (feeds : list Feed) (kw : list Pattern)
    (file : option Seen) (o : Outcome) :
  main unescape parse today feeds kw file = Ok o ->
  exists collected seen_hashes,
    collect unescape parse feeds kw (hashes (load_seen file))
      = Ok (collected, seen_hashes)
    /\ o = {| digest_md := render_digest today collected;
              saved := Some (cap {| hashes := seen_hashes;
                                    max_len := max_len (load_seen file) |});
              collected_items := collected |}.
Proof.
  unfold main.
  destruct (collect unescape parse feeds kw (hashes (load_seen file)))
    as [[collected seen_hashes]|]; simpl; [|discriminate].
  intros E. injection E as <-. now exists collected, seen_hashes.
Qed.

(** A run returns as soon as every title and link can be encoded. *)
Lemma main_returns (today : str) (feeds : list Feed) (kw : list Pattern)
    (file : option Seen) :
  (forall f e, In f feeds -> In e (parse (f_url f)) ->
     exists h, fingerprint e = Ok h) ->
  exists o, main unescape parse today feeds kw file = Ok o.
Proof.
  intros H. unfold main, collect.
  generalize (@nil Item, hashes (load_seen file)).
  induction feeds as [|f feeds IH]; intros st; simpl.
  - destruct st. eexists. reflexivity.
  - assert (Hf : exists st1, process_feed unescape parse kw st f = Ok st1).
    { unfold process_feed.
      assert (He : forall e, In e (parse (f_url f)) ->
                     exists h, fingerprint e = Ok h)
        by (intros e; apply H; now left).
      revert st He.
      induction (parse (f_url f)) as [|e es IHe]; intros st He; simpl.
      - now exists st.
      - rewrite process_entry_eq.
        destruct (He e (or_introl eq_refl)) as [h ->]. simpl.
        destruct (contains h (snd st)); [|destruct (filtered_out kw e)];
          simpl; apply IHe; intros e' He'; apply He; now right. }
    destruct Hf as [st1 ->]. simpl. apply IH.
    intros f' e Hf' He. apply (H f' e); [now right | exact He].
Qed.

End Main.

(** C1, as stated, fails when the cap drops a fingerprint of an entry that
    is still in the feed. With [max_len] 3 and a feed of four new entries
    A, B, C, D the first run saves the fingerprints of B, C and D only, and
    the second run collects A again. *)
Lemma second_run_collects_dropped :
  let first := Some {| hashes := []; max_len := 3 |} in
  let run := main Sample.no_entities Sample.four_entries (lit "2024-01-01")
               [Sample.lab_news] [] in
  exists o1 o2,
    run first = Ok o1
    /\ run (saved o1) = Ok o2
    /\ List.map title (collected_items o1) = [lit "A"; lit "B"; lit "C"; lit "D"]
    /\ List.map title (collected_items o2) = [lit "A"].
Proof.
  cbv zeta. eexists. eexists.
  split; [vm_compute; reflexivity|].
  split; [vm_compute; reflexivity|].
  split; vm_compute; reflexivity.
Qed.

(** The cap applied to a capped state changes nothing. *)
Lemma cap_cap (seen : Seen) :
  (0 <= max_len seen)%Z -> cap (cap seen) = cap seen.
Proof.
  intros Hm. destruct (Z.eq_dec (max_len seen) 0) as [E0 | Hne].
  - destruct seen as [l m]. simpl in E0. subst m.
    now rewrite !cap_zero_keeps_all.
  - apply cap_within. rewrite cap_max_len, cap_hashes by lia.
    rewrite length_skipn. lia.
Qed.

(** C1, amended. After a first run, a second run over the same feeds and
    keywords, started from the state the first one saved, collects no item
    exactly when every entry of the feeds that the keywords let through
    still has its fingerprint in the saved list, that is, when the cap
    dropped no fingerprint of an entry still in a feed. This is so in
    particular when the cap dropped nothing (the list the first run started
    from plus one fingerprint per collected item is no longer than
    [max_len]). A second run that collects nothing saves the same state. *)
Theorem second_run_collects_nothing
    (unescape : str -> str) (parse : str -> list Entry)
    (today today' : str) (feeds : list Feed) (kw : list Pattern)
    (file : option Seen) (o1 : Outcome) :
  main unescape parse today feeds kw file = Ok o1 ->
  exists state,
    saved o1 = Some state
    /\ ((forall f e h, In f feeds -> In e (parse (f_url f)) ->
            fingerprint e = Ok h -> filtered_out kw e = false ->
            In h (hashes state))
        <-> (exists o2,
               main unescape parse today' feeds kw (saved o1) = Ok o2
               /\ collected_items o2 = []))
    /\ ((Z.of_nat (length (hashes (load_seen file))
                   + length (collected_items o1))
         <= max_len (load_seen file))%Z ->
        forall f e h, In f feeds -> In e (parse (f_url f)) ->
          fingerprint e = Ok h -> filtered_out kw e = false ->
          In h (hashes state))
    /\ (forall o2,
          main unescape parse today' feeds kw (saved o1) = Ok o2 ->
          collected_items o2 = [] ->
          (0 <= max_len (load_seen file))%Z ->
          saved o2 = saved o1).
Proof.
  intros Hrun.
  destruct (main_ok _ _ _ _ _ _ Hrun) as (c & hs' & Hc & ->).
  set (s0 := {| hashes := hs'; max_len := max_len (load_seen file) |}).
  exists (cap s0). split; [reflexivity|]. simpl saved. simpl collected_items.
  pose proof (collect_skipped _ _ _ _ _ Hc) as Hfirst. simpl in Hfirst.
  split; [split|split].
  - (* the fingerprints are there: the second run collects nothing *)
    intros Hkept. unfold main. simpl load_seen.
    rewrite collect_again.
    + simpl. eexists. split; reflexivity.
    + intros f Hf e He. destruct (Hfirst f Hf e He) as (h & Hh & _).
      exists h. split; [exact Hh|].
      destruct (filtered_out kw e) eqn:Ef; [now right | left].
      now apply (Hkept f e h).
  - (* the second run collects nothing: the fingerprints are there *)
    intros (o2 & Hrun2 & Hnone) f e h Hf He Hh Ef.
    destruct (main_ok _ _ _ _ _ _ Hrun2) as (c2 & hs2 & Hc2 & ->).
    simpl in Hnone, Hc2. subst c2.
    destruct (collect_extends _ _ _ _ _ Hc2) as (new & fps & Hnew & Hfps & F).
    simpl in Hnew, Hfps. subst new. inversion F; subst.
    rewrite app_nil_r in Hc2.
    destruct (collect_skipped _ _ _ _ _ Hc2 f Hf e He) as (h' & Hh' & Hin).
    simpl in Hin. rewrite Hh in Hh'. injection Hh' as <-.
    destruct Hin as [Hin | Hout]; [exact Hin | congruence].
  - (* nothing dropped *)
    intros Hfit f e h Hf He Hh Ef.
    destruct (collect_extends _ _ _ _ _ Hc) as (new & fps & Hnew & Hfps & F).
    simpl in Hnew, Hfps. subst c hs'. apply Forall2_length in F.
    rewrite cap_within by (simpl; rewrite length_app; lia). simpl.
    destruct (Hfirst f Hf e He) as (h' & Hh' & Hin).
    rewrite Hh in Hh'. injection Hh' as <-.
    destruct Hin as [Hin | Hout]; [exact Hin | congruence].
  - (* the state saved by a second run that collects nothing *)
    intros o2 Hrun2 Hnone Hm.
    destruct (main_ok _ _ _ _ _ _ Hrun2) as (c2 & hs2 & Hc2 & ->).
    simpl in Hnone, Hc2 |- *. subst c2.
    destruct (collect_extends _ _ _ _ _ Hc2) as (new & fps & Hnew & Hfps & F).
    simpl in Hnew, Hfps. subst new. inversion F; subst.
    rewrite app_nil_r, cap_max_len. f_equal.
    replace {| hashes := hashes (cap s0); max_len := max_len s0 |}
      with (cap s0)
      by (rewrite <- (cap_max_len s0); now destruct (cap s0)).
    now apply cap_cap.
Qed.

Lemma second_run_collects_nothing_witness :
  let full := Some {| hashes := [lit "old1"; lit "old2"; lit "old3"];
                      max_len := 3 |} in
  exists o1 o2,
    main Sample.no_entities Sample.two_entries (lit "2024-01-01")
      [Sample.lab_news] [] full = Ok o1
    /\ List.map title (collected_items o1)
       = [lit "New qPCR robot"; lit "Unrelated"]
    /\ main Sample.no_entities Sample.two_entries (lit "2024-01-02")
         [Sample.lab_news] [] (saved o1) = Ok o2
    /\ collected_items o2 = []
    /\ saved o2 = saved o1.
Proof.
  cbv zeta. eexists.
  assert (Hrun : main Sample.no_entities Sample.two_entries (lit "2024-01-01")
            [Sample.lab_news] []
            (Some {| hashes := [lit "old1"; lit "old2"; lit "old3"];
                     max_len := 3 |}) = Ok _)
    by (vm_compute; reflexivity).
  destruct (@second_run_collects_nothing _ _ _ (lit "2024-01-02") _ _ _ _ Hrun)
    as (state & Hs & [Hzero _] & _ & Hsame).
  simpl in Hs. injection Hs as <-.
  destruct Hzero as (o2 & Hrun2 & Hnone).
  { intros f e h [<- | []] He Hh _. simpl in He.
    destruct He as [<- | [<- | []]];
      vm_compute in Hh; injection Hh as <-; vm_compute; auto 10. }
  exists o2. split; [exact Hrun|]. split; [vm_compute; reflexivity|].
  split; [exact Hrun2|]. split; [exact Hnone|].
  apply (Hsame o2 Hrun2 Hnone). simpl. lia.
Defined.

(** C4. Filter gate: with at least one keyword, an entry whose title and
    summary, as read from the feed and joined by a newline, match none of
    the keywords leaves [collected] and the seen list as they were (the
    only trace of the entry is that its fingerprint was computed); so a
    feed processed with that entry in it ends as the feed without it. *)
Theorem filter_gate
    (unescape : str -> str) (kw : list Pattern) (name : str)
    (st : loop_state) (e : Entry) :
  kw <> [] ->
  (forall k, In k kw -> search k (raw_title e ++ nl ++ raw_summary e) = false) ->
  process_entry unescape kw name st e = (_ <- fingerprint e;; Ok st)
  /\ forall before after,
       foldM (process_entry unescape kw name) (before ++ e :: after) st =
       (st1 <- foldM (process_entry unescape kw name) before st;;
        _ <- fingerprint e;;
        foldM (process_entry unescape kw name) after st1).
Proof.
  intros Hkw Hnone.
  assert (Hout : filtered_out kw e = true).
  { unfold filtered_out, matches_keywords. cbn [or_empty].
    apply andb_true_intro. split.
    - destruct kw; [congruence | reflexivity].
    - apply negb_true_iff.
      destruct (existsb _ kw) eqn:Ex; [|reflexivity].
      apply existsb_exists in Ex. destruct Ex as (k & Hk & Hs).
      rewrite (Hnone k Hk) in Hs. discriminate. }
  assert (Hstep : forall s, process_entry unescape kw name s e
                            = (_ <- fingerprint e;; Ok s)).
  { intros s. rewrite process_entry_eq.
    destruct (fingerprint e) as [h|]; simpl; [|reflexivity].
    rewrite Hout. now destruct (contains h (snd s)). }
  split; [apply Hstep|].
  intros before after. rewrite foldM_app.
  destruct (foldM _ before st) as [st1|]; simpl; [|reflexivity].
  rewrite Hstep. destruct (fingerprint e); reflexivity.
Qed.

Lemma filter_gate_witness :
  let kw := [Sample.keyword (lit "qPCR")] in
  let e := Sample.entry "Unrelated" "http://b" "..." in
  process_entry Sample.no_entities kw (lit "LabNews") ([], []) e = Ok ([], []).
Proof.
  cbv zeta.
  assert (Hkw : [Sample.keyword (lit "qPCR")] <> []) by discriminate.
  assert (Hnone : forall k, In k [Sample.keyword (lit "qPCR")] ->
            search k (raw_title (Sample.entry "Unrelated" "http://b" "...")
                      ++ nl ++ raw_summary (Sample.entry "Unrelated" "http://b" "..."))
            = false).
  { intros k [<- | []]. vm_compute. reflexivity. }
  rewrite (proj1 (filter_gate Sample.no_entities (lit "LabNews") ([], []) _
                    Hkw Hnone)).
  vm_compute. reflexivity.
Defined.

(** C9. Ledger frame: with a positive [max_len], the seen list a run saves
    is the list it loaded followed by the fingerprints of the items it
    collected, in the order of collection, cut down to its last [max_len]
    entries when it is longer than that. *)
Theorem main_ledger_frame
    (unescape : str -> str) (parse : str -> list Entry)
    (today : str) (feeds : list Feed) (kw : list Pattern)
    (file : option Seen) (o : Outcome) :
  (0 < max_len (load_seen file))%Z ->
  main unescape parse today feeds kw file = Ok o ->
  exists fps,
    Forall2 (fun it h => item_fingerprint it = Ok h) (collected_items o) fps
    /\ let full := hashes (load_seen file) ++ fps in
       let c := Z.to_nat (max_len (load_seen file)) in
       saved o =
       Some {| hashes := if length full <=? c then full
                         else skipn (length full - c) full;
               max_len := max_len (load_seen file) |}.
Proof.
  intros Hpos Hrun.
  destruct (main_ok _ _ _ _ _ _ Hrun) as (c & hs' & Hc & ->).
  destruct (collect_extends _ _ _ _ _ Hc) as (new & fps & Hnew & Hfps & F).
  simpl in Hnew, Hfps. subst c hs'.
  exists fps. split; [exact F|]. cbv zeta. simpl saved. f_equal.
  set (s := {| hashes := hashes (load_seen file) ++ fps;
               max_len := max_len (load_seen file) |}).
  assert (Hh : hashes (cap s) =
               skipn (length (hashes s) - Z.to_nat (max_len s)) (hashes s))
    by (apply cap_hashes; exact Hpos).
  assert (Hm : max_len (cap s) = max_len s) by apply cap_max_len.
  destruct (cap s) as [ch cm]. simpl in Hh, Hm. subst ch cm. f_equal.
  destruct (Nat.leb_spec (length (hashes (load_seen file) ++ fps))
              (Z.to_nat (max_len (load_seen file)))) as [Hle | Hgt];
    [|reflexivity].
  replace (_ - _) with 0 by lia. reflexivity.
Qed.

Lemma main_ledger_frame_witness :
  let first := Some {| hashes := [lit "old1"; lit "old2"]; max_len := 3 |} in
  exists o,
    main Sample.no_entities Sample.two_entries (lit "2024-01-01")
      [Sample.lab_news] [] first = Ok o
    /\ option_map hashes (saved o) =
       Some [lit "old2";
             lit "fe6581f096947fbd60c1c8e7e08b2aa706108c56cef2807d5110ef2dd01a6950";
             lit "d15eafbc33447573e4de00aea9a9980ffaacd4530d54411cda82aa67c15017c2"].
Proof.
  cbv zeta. eexists.
  assert (Hrun : main Sample.no_entities Sample.two_entries (lit "2024-01-01")
            [Sample.lab_news] []
            (Some {| hashes := [lit "old1"; lit "old2"]; max_len := 3 |}) = Ok _)
    by (vm_compute; reflexivity).
  split; [exact Hrun|].
  assert (Hpos : (0 < max_len (load_seen
            (Some {| hashes := [lit "old1"; lit "old2"]; max_len := 3 |})))%Z)
    by (simpl; lia).
  destruct (main_ledger_frame _ _ _ _ _ _ Hpos Hrun) as (fps & F & Hsaved).
  vm_compute. reflexivity.
Defined.

(* ===================================================================== *)
(** ** The order on strings *)
(* ===================================================================== *)

Lemma str_compare_eq (a b : str) : str_compare a b = Eq <-> a = b.
Proof.
  revert b. induction a as [|x a IH]; intros [|y b]; simpl;
    try (split; [discriminate | congruence]); [tauto|].
  destruct (N.compare_spec x y) as [E | L | G].
  - subst y. rewrite IH. split; congruence.
  - split; [discriminate | intros E; injection E; lia].
  - split; [discriminate | intros E; injection E; lia].
Qed.

Lemma str_compare_antisym (a b : str) :
  str_compare b a = CompOpp (str_compare a b).
Proof.
  revert b. induction a as [|x a IH]; intros [|y b]; simpl; trivial.
  rewrite (N.compare_antisym x y).
  destruct (N.compare x y); simpl; trivial.
Qed.

Lemma str_lt_trans (a b c : str) : str_lt a b -> str_lt b c -> str_lt a c.
Proof.
  unfold str_lt. revert b c.
  induction a as [|x a IH]; intros [|y b] [|z c]; simpl; try congruence.
  destruct (N.compare_spec x y) as [E1 | L1 | G1]; try discriminate;
    destruct (N.compare_spec y z) as [E2 | L2 | G2]; try discriminate;
    intros H1 H2.
  - subst. rewrite N.compare_refl. now apply IH with b.
  - subst. now rewrite (proj2 (N.compare_lt_iff _ _) L2).
  - subst. now rewrite (proj2 (N.compare_lt_iff _ _) L1).
  - now rewrite (proj2 (N.compare_lt_iff x z) (N.lt_trans _ _ _ L1 L2)).
Qed.

Lemma str_ltb_lt (a b : str) : str_ltb a b = true <-> str_lt a b.
Proof.
  unfold str_ltb, str_lt. destruct (str_compare a b); split; congruence.
Qed.

(** Two different strings are ordered one way or the other. *)
Lemma str_ltb_false (a b : str) : str_ltb a b = false -> a <> b -> str_lt b a.
Proof.
  unfold str_ltb, str_lt. intros H Hne.
  rewrite (str_compare_antisym a b).
  destruct (str_compare a b) eqn:E; try discriminate; [|reflexivity].
  apply str_compare_eq in E. contradiction.
Qed.

(* ===================================================================== *)
(** ** Grouping by source *)
(* ===================================================================== *)

(** The items of one source, in the order of the list. *)
Lemma group_by_source_snoc (items : list Item) (it : Item) :
  group_by_source (items ++ [it]) =
  setdefault_append (group_by_source items) (source it) it.
Proof. unfold group_by_source. now rewrite fold_left_app. Qed.

Lemma setdefault_append_keys (d : list (str * list Item)) (k : str) (it : Item) :
  forall k', In k' (List.map fst (setdefault_append d k it))
             <-> k' = k \/ In k' (List.map fst d).
Proof.
  induction d as [|[k0 arr] d IH]; intros k'; simpl.
  - intuition congruence.
  - destruct (str_eqb k0 k) eqn:E; simpl.
    + apply str_eqb_eq in E. subst k0. intuition congruence.
    + rewrite IH. tauto.
Qed.

Lemma setdefault_append_NoDup (d : list (str * list Item)) (k : str) (it : Item) :
  NoDup (List.map fst d) -> NoDup (List.map fst (setdefault_append d k it)).
Proof.
  induction d as [|[k0 arr] d IH]; simpl; intros H.
  - constructor; [tauto | constructor].
  - inversion H as [|? ? Hnot Hd]; subst.
    destruct (str_eqb k0 k) eqn:E; simpl.
    + now constructor.
    + constructor; [|now apply IH].
      rewrite setdefault_append_keys. intros [Ek | Hin]; [|contradiction].
      subst k0. rewrite str_eqb_refl in E. discriminate.
Qed.

Lemma setdefault_append_length (d : list (str * list Item)) (k : str) (it : Item) :
  list_sum (List.map (fun g => length (snd g)) (setdefault_append d k it)) =
  S (list_sum (List.map (fun g => length (snd g)) d)).
Proof.
  induction d as [|[k0 arr] d IH]; simpl; [reflexivity|].
  destruct (str_eqb k0 k); simpl.
  - rewrite length_app. simpl. lia.
  - rewrite IH. lia.
Qed.

Lemma filter_none {A} (f : A -> bool) (l : list A) :
  (forall x, In x l -> f x = false) -> filter f l = [].
Proof.
  induction l as [|x l IH]; simpl; intros H; [reflexivity|].
  rewrite (H x (or_introl eq_refl)). apply IH. intros y Hy. apply H. now right.
Qed.

Lemma setdefault_append_groups (d : list (str * list Item)) (items : list Item)
    (it : Item) :
  NoDup (List.map fst d) ->
  (~ In (source it) (List.map fst d) -> of_source (source it) items = []) ->
  Forall (fun g => snd g = of_source (fst g) items) d ->
  Forall (fun g => snd g = of_source (fst g) (items ++ [it]))
         (setdefault_append d (source it) it).
Proof.
  unfold of_source.
  induction d as [|[k0 arr] d IH]; simpl; intros Hnd Hnew Hd.
  - constructor; [|constructor]. simpl.
    rewrite filter_app, Hnew by tauto. simpl. now rewrite str_eqb_refl.
  - inversion Hd as [|? ? Hg Hd']; subst. simpl in Hg.
    apply NoDup_cons_iff in Hnd. destruct Hnd as [Hnot Hnd'].
    destruct (str_eqb k0 (source it)) eqn:E.
    + apply str_eqb_eq in E. subst k0.
      constructor; simpl.
      * rewrite filter_app. simpl. rewrite str_eqb_refl. now rewrite Hg.
      * rewrite Forall_forall in Hd' |- *. intros [k1 a1] Hin.
        pose proof (Hd' _ Hin) as Ha. simpl in Ha |- *.
        rewrite Ha, filter_app. simpl.
        destruct (str_eqb (source it) k1) eqn:E1; [|now rewrite app_nil_r].
        apply str_eqb_eq in E1. subst k1. exfalso. apply Hnot.
        change (source it) with (fst (source it, a1)). now apply in_map.
    + constructor; simpl.
      * rewrite filter_app. simpl.
        assert (E' : str_eqb (source it) k0 = false).
        { apply str_eqb_neq. apply str_eqb_neq in E. congruence. }
        rewrite E', app_nil_r. exact Hg.
      * apply IH; [exact Hnd'| |exact Hd'].
        intros Hnot'. apply Hnew. intros [Ek | Hin]; [|contradiction].
        subst k0. rewrite str_eqb_refl in E. discriminate.
Qed.

(** What [by_source] holds once the items are grouped: one entry per
    source, with the items of that source in the order of [items]. *)
Lemma group_by_source_spec (items : list Item) :
  let d := group_by_source items in
  NoDup (List.map fst d)
  /\ (forall k, In k (List.map fst d) <-> In k (List.map source items))
  /\ Forall (fun g => snd g = of_source (fst g) items) d
  /\ list_sum (List.map (fun g => length (snd g)) d) = length items.
Proof.
  cbv zeta. induction items as [|it items IH] using rev_ind.
  - simpl. repeat split; try constructor; tauto.
  - destruct IH as (Hnd & Hk & Hg & Hs).
    rewrite group_by_source_snoc. repeat split.
    + now apply setdefault_append_NoDup.
    + rewrite setdefault_append_keys, Hk, map_app, in_app_iff. simpl.
      intuition congruence.
    + rewrite setdefault_append_keys, Hk, map_app, in_app_iff. simpl.
      intuition congruence.
    + apply setdefault_append_groups; trivial.
      intros Hnot. unfold of_source.
      apply filter_none.
      intros x Hx. apply str_eqb_neq. intros E. apply Hnot, Hk.
      rewrite <- E. now apply in_map.
    + rewrite setdefault_append_length, Hs, length_app. simpl. lia.
Qed.

(* ===================================================================== *)
(** ** Sorting the sources *)
(* ===================================================================== *)

Lemma insert_sorted_perm (x : str * list Item) (l : list (str * list Item)) :
  Permutation (insert_sorted x l) (x :: l).
Proof.
  induction l as [|y l IH]; simpl; [apply Permutation_refl|].
  destruct (str_ltb (fst y) (fst x)); [|apply Permutation_refl].
  apply perm_trans with (y :: x :: l); [now constructor | constructor].
Qed.

Lemma sorted_items_perm (d : list (str * list Item)) :
  Permutation (sorted_items d) d.
Proof.
  induction d as [|g d IH]; simpl; [constructor|].
  apply perm_trans with (g :: sorted_items d);
    [apply insert_sorted_perm | now constructor].
Qed.

Lemma sorted_items_length (d : list (str * list Item)) :
  length (sorted_items d) = length d.
Proof. apply Permutation_length, sorted_items_perm. Qed.

Lemma sorted_items_keys (d : list (str * list Item)) (k : str) :
  In k (List.map fst (sorted_items d)) <-> In k (List.map fst d).
Proof.
  split; apply Permutation_in, Permutation_map;
    [|apply Permutation_sym]; apply sorted_items_perm.
Qed.

Lemma insert_sorted_sum (x : str * list Item) (l : list (str * list Item)) :
  list_sum (List.map (fun g => length (snd g)) (insert_sorted x l)) =
  length (snd x) + list_sum (List.map (fun g => length (snd g)) l).
Proof.
  induction l as [|y l IH]; simpl; [reflexivity|].
  destruct (str_ltb (fst y) (fst x)); simpl; [rewrite IH|]; lia.
Qed.

Lemma sorted_items_sum (d : list (str * list Item)) :
  list_sum (List.map (fun g => length (snd g)) (sorted_items d)) =
  list_sum (List.map (fun g => length (snd g)) d).
Proof.
  induction d as [|g d IH]; simpl; [reflexivity|].
  now rewrite insert_sorted_sum, IH.
Qed.

Lemma insert_sorted_HdRel (y x : str * list Item) (l : list (str * list Item)) :
  key_lt y x -> HdRel key_lt y l -> HdRel key_lt y (insert_sorted x l).
Proof.
  intros Hyx Hl. destruct l as [|z l]; simpl; [now constructor|].
  destruct (str_ltb (fst z) (fst x)); constructor; trivial.
  now inversion Hl.
Qed.

Lemma insert_sorted_Sorted (x : str * list Item) (l : list (str * list Item)) :
  ~ In (fst x) (List.map fst l) ->
  Sorted key_lt l -> Sorted key_lt (insert_sorted x l).
Proof.
  induction l as [|y l IH]; simpl; intros Hnot Hs.
  - repeat constructor.
  - inversion Hs as [|? ? Hs' Hhd]; subst.
    destruct (str_ltb (fst y) (fst x)) eqn:E.
    + constructor; [apply IH; tauto|].
      apply insert_sorted_HdRel; [now apply str_ltb_lt | exact Hhd].
    + constructor; [exact Hs|]. constructor.
      apply str_ltb_false; [exact E | intros Ey; apply Hnot; now left].
Qed.

Lemma sorted_items_Sorted (d : list (str * list Item)) :
  NoDup (List.map fst d) -> Sorted key_lt (sorted_items d).
Proof.
  induction d as [|g d IH]; simpl; intros Hnd; [constructor|].
  apply NoDup_cons_iff in Hnd. destruct Hnd as [Hnot Hnd].
  apply insert_sorted_Sorted; [|now apply IH].
  now rewrite sorted_items_keys.
Qed.

Lemma key_lt_keys (l : list (str * list Item)) :
  StronglySorted key_lt l -> StronglySorted str_lt (List.map fst l).
Proof.
  induction 1 as [|g l Hs IH Hall]; simpl; constructor; trivial.
  rewrite Forall_forall in *. intros k Hk.
  apply in_map_iff in Hk. destruct Hk as (g' & <- & Hg'). now apply Hall.
Qed.

(** The sources come out in strictly increasing order. *)
Lemma sorted_items_keys_sorted (d : list (str * list Item)) :
  NoDup (List.map fst d) -> StronglySorted str_lt (List.map fst (sorted_items d)).
Proof.
  intros Hnd. apply key_lt_keys, Sorted_StronglySorted.
  - intros a b c. unfold key_lt. apply str_lt_trans.
  - now apply sorted_items_Sorted.
Qed.

(** The sorted blocks of a list of items: as many as there are distinct
    sources, each holding the items of its source in the order of the list. *)
Lemma blocks_spec (items : list Item) :
  let blocks := sorted_items (group_by_source items) in
  StronglySorted str_lt (List.map fst blocks)
  /\ (forall k, In k (List.map fst blocks) <-> In k (List.map source items))
  /\ Forall (fun g => snd g = of_source (fst g) items /\ snd g <> []) blocks
  /\ list_sum (List.map (fun g => length (snd g)) blocks) = length items
  /\ length blocks = length (distinct_sources items).
Proof.
  cbv zeta. destruct (group_by_source_spec items) as (Hnd & Hk & Hg & Hs).
  split; [now apply sorted_items_keys_sorted|].
  split; [intros k; now rewrite sorted_items_keys|].
  split; [|split].
  - rewrite Forall_forall in *. intros g Hin.
    assert (Hin' : In g (group_by_source items))
      by (revert Hin; apply Permutation_in, sorted_items_perm).
    split; [now apply Hg|].
    rewrite (Hg g Hin'). unfold of_source.
    assert (Hsrc : In (fst g) (List.map source items))
      by (apply Hk; now apply in_map).
    apply in_map_iff in Hsrc. destruct Hsrc as (it & Eit & Hit).
    intros Enil.
    assert (Hf : In it (filter (fun it0 => str_eqb (source it0) (fst g)) items))
      by (apply filter_In; split; [exact Hit | now apply str_eqb_eq]).
    now rewrite Enil in Hf.
  - now rewrite sorted_items_sum.
  - rewrite sorted_items_length, <- (length_map fst).
    apply Permutation_length, NoDup_Permutation; trivial.
    + apply NoDup_nodup.
    + intros k. unfold distinct_sources. now rewrite nodup_In, Hk.
Qed.

(* ===================================================================== *)
(** ** The rendered document *)
(* ===================================================================== *)

Lemma join_cons2 (sep x y : str) (r : list str) :
  join sep (x :: y :: r) = x ++ sep ++ join sep (y :: r).
Proof. reflexivity. Qed.

Lemma join_app_cons (sep : str) (a : list str) (x : str) (r : list str) :
  join sep (a ++ x :: r) =
  concat (List.map (fun b => b ++ sep) a) ++ join sep (x :: r).
Proof.
  induction a as [|b a IH]; [reflexivity|].
  change ((b :: a) ++ x :: r) with (b :: (a ++ x :: r)).
  destruct a as [|b' a].
  - simpl. now rewrite app_nil_r, <- app_assoc.
  - change ((b' :: a) ++ x :: r) with (b' :: (a ++ x :: r)) in *.
    rewrite join_cons2, IH. simpl. now rewrite <- !app_assoc.
Qed.

Lemma join_head_In (sep x : str) (r : list str) (c : char) :
  In c x -> In c (join sep (x :: r)).
Proof.
  intros H. destruct r; simpl; [exact H|]. apply in_or_app. now left.
Qed.

Lemma digest_lines_eq (date_str : str) (items : list Item) :
  digest_lines date_str items =
  (heading date_str ++ nl)
    :: count_line (length items) (length (group_by_source items))
    :: (lit "## Summary by Source" ++ nl)
    :: List.map breakdown_line (source_counts (group_by_source items))
    ++ lit "" :: flat_map section_lines (sorted_items (group_by_source items)).
Proof.
  unfold digest_lines. cbv zeta. rewrite <- !app_assoc. reflexivity.
Qed.

Lemma group_by_source_not_nil (items : list Item) :
  items <> [] -> sorted_items (group_by_source items) <> [].
Proof.
  intros Hne E. apply (f_equal (@length _)) in E.
  rewrite sorted_items_length in E.
  destruct (group_by_source_spec items) as (_ & _ & _ & Hs).
  destruct (group_by_source items); simpl in *; [|discriminate].
  destruct items; [congruence | discriminate].
Qed.

Lemma rstrip_app_not_nil (a b : str) : rstrip b <> [] -> rstrip (a ++ b) <> [].
Proof.
  intros H. rewrite rstrip_app by exact H.
  intros E. apply app_eq_nil in E. now apply H.
Qed.

Lemma lstrip_heading (date_str rest : str) :
  lstrip (heading date_str ++ rest) = heading date_str ++ rest.
Proof. reflexivity. Qed.

(** The text of a digest with items: [strip] removes nothing at the front,
    and at the back it only reaches into the detail sections. *)
Lemma render_digest_layout (date_str : str) (items : list Item) :
  items <> [] ->
  render_digest date_str items =
  heading date_str ++ nl ++ nl
    ++ count_line (length items) (length (group_by_source items)) ++ nl
    ++ lit "## Summary by Source" ++ nl ++ nl
    ++ concat (List.map (fun b => b ++ nl)
                 (List.map breakdown_line (source_counts (group_by_source items))))
    ++ rstrip (nl ++ join nl (flat_map section_lines
                                (sorted_items (group_by_source items))))
    ++ nl.
Proof.
  intros Hne.
  assert (Hr : render_digest date_str items =
               strip (join nl (digest_lines date_str items)) ++ nl)
    by (destruct items; [congruence | reflexivity]).
  rewrite Hr, digest_lines_eq. clear Hr.
  pose proof (group_by_source_not_nil Hne) as Hblocks.
  destruct (sorted_items (group_by_source items)) as [|g blocks] eqn:Eb;
    [congruence|]. clear Hblocks.
  rewrite !app_comm_cons, join_app_cons.
  assert (HR : join nl (lit "" :: flat_map section_lines (g :: blocks)) =
               nl ++ join nl (flat_map section_lines (g :: blocks)))
    by reflexivity.
  rewrite HR. clear HR.
  set (R := nl ++ join nl (flat_map section_lines (g :: blocks))).
  assert (Hsecs : rstrip R <> []).
  { apply rstrip_not_nil with 35%N; [|reflexivity].
    apply in_or_app. right.
    change (flat_map section_lines (g :: blocks))
      with ((nl ++ lit "## " ++ fst g ++ nl)
              :: List.map entry_line (snd g) ++ flat_map section_lines blocks).
    apply join_head_In. simpl. tauto. }
  clearbody R. cbn [List.map concat]. unfold strip.
  rewrite <- !app_assoc, lstrip_heading.
  repeat (rewrite rstrip_app
            by (repeat apply rstrip_app_not_nil; exact Hsecs)).
  rewrite <- !app_assoc. reflexivity.
Qed.

(** C6. Render determinism and ordering: the text is a function of the
    date label and the list of items; with items, the breakdown lines and
    the detail sections are both laid out from the same list of blocks,
    one per source, in strictly increasing order of the source names, and
    the entries of a block are the items of that source in the order of
    the list. *)
Theorem render_digest_order (date_str : str) (items : list Item) :
  (forall date_str' items', date_str' = date_str -> items' = items ->
     render_digest date_str' items' = render_digest date_str items)
  /\ (items <> [] ->
      let blocks := sorted_items (group_by_source items) in
      render_digest date_str items =
        strip (join nl
          ((heading date_str ++ nl)
           :: count_line (length items) (length blocks)
           :: (lit "## Summary by Source" ++ nl)
           :: List.map (fun g => breakdown_line (fst g, length (snd g))) blocks
           ++ lit ""
           :: flat_map (fun g => (nl ++ lit "## " ++ fst g ++ nl)
                                   :: List.map entry_line (snd g)) blocks))
        ++ nl
      /\ StronglySorted str_lt (List.map fst blocks)
      /\ (forall k, In k (List.map fst blocks) <-> In k (List.map source items))
      /\ Forall (fun g => snd g = of_source (fst g) items) blocks).
Proof.
  split; [intros ? ? -> ->; reflexivity|].
  intros Hne. cbv zeta.
  destruct (blocks_spec items) as (Hsorted & Hkeys & Hblocks & _ & _).
  split; [|split; [exact Hsorted | split; [exact Hkeys|]]].
  - destruct items as [|it items]; [congruence|].
    unfold render_digest. rewrite digest_lines_eq.
    unfold source_counts. now rewrite map_map, sorted_items_length.
  - revert Hblocks. apply Forall_impl. tauto.
Qed.

Lemma render_digest_order_witness :
  let blocks := sorted_items (group_by_source Sample.three_items) in
  StronglySorted str_lt (List.map fst blocks)
  /\ List.map fst blocks = [lit "Cell"; lit "Nature"]
  /\ List.map (fun g => List.map title (snd g)) blocks
     = [[lit "c1"]; [lit "n1"; lit "n2"]].
Proof.
  cbv zeta.
  assert (Hne : Sample.three_items <> []) by discriminate.
  destruct (proj2 (render_digest_order (lit "2024-01-01") Sample.three_items)
              Hne) as (_ & Hsorted & _ & _).
  split; [exact Hsorted|]. split; vm_compute; reflexivity.
Defined.

(** C8. Count lines: the text of a digest with items has, after the
    heading, the line "**N items from M sources**" with N the number of
    items and M the number of distinct source names, and then one breakdown
    line per source giving the number of items of that source, followed by
    "item" when that number is 1 and by "items" otherwise. *)
Theorem render_digest_counts (date_str : str) (items : list Item) :
  items <> [] ->
  let n := length items in
  let m := length (distinct_sources items) in
  let counts := source_counts (group_by_source items) in
  (exists details,
     render_digest date_str items =
     heading date_str ++ nl ++ nl
       ++ (lit "**" ++ str_of_nat n ++ lit " items from " ++ str_of_nat m
             ++ lit " sources**" ++ nl) ++ nl
       ++ lit "## Summary by Source" ++ nl ++ nl
       ++ concat (List.map (fun sc => breakdown_line sc ++ nl) counts)
       ++ details)
  /\ Forall (fun sc =>
       snd sc = length (of_source (fst sc) items)
       /\ breakdown_line sc =
          lit "- " ++ fst sc ++ lit ": " ++ str_of_nat (snd sc)
            ++ (if Nat.eqb (snd sc) 1 then lit " item" else lit " items"))
       counts.
Proof.
  intros Hne. cbv zeta.
  destruct (blocks_spec items) as (_ & _ & Hblocks & _ & Hm).
  split.
  - eexists. rewrite (render_digest_layout date_str Hne), map_map.
    unfold count_line. rewrite <- Hm, sorted_items_length. reflexivity.
  - unfold source_counts. rewrite Forall_map.
    revert Hblocks. apply Forall_impl. intros g [Hg _]. simpl. split.
    + now rewrite Hg.
    + unfold breakdown_line, plural. simpl.
      destruct (Nat.eqb (length (snd g)) 1); reflexivity.
Qed.

Lemma render_digest_counts_witness :
  source_counts (group_by_source Sample.three_items)
    = [(lit "Cell", 1); (lit "Nature", 2)]
  /\ List.map breakdown_line (source_counts (group_by_source Sample.three_items))
     = [lit "- Cell: 1 item"; lit "- Nature: 2 items"]
  /\ exists details,
       render_digest (lit "2024-01-01") Sample.three_items =
       heading (lit "2024-01-01") ++ nl ++ nl
         ++ lit "**3 items from 2 sources**" ++ nl ++ nl
         ++ lit "## Summary by Source" ++ nl ++ nl
         ++ lit "- Cell: 1 item" ++ nl ++ lit "- Nature: 2 items" ++ nl
         ++ details.
Proof.
  assert (Hne : Sample.three_items <> []) by discriminate.
  destruct (render_digest_counts (lit "2024-01-01") Hne)
    as [[details Hd] _].
  split; [vm_compute; reflexivity|]. split; [vm_compute; reflexivity|].
  exists details. rewrite Hd. vm_compute. reflexivity.
Defined.

Lemma filter_not_header (line : str) (lines : list str) :
  is_section_header line = false ->
  filter is_section_header (line :: lines) = filter is_section_header lines.
Proof. intros H. simpl. now rewrite H. Qed.

Lemma breakdown_not_headers {A} (f : A -> str) (blocks : list A) :
  (forall g, is_section_header (f g) = false) ->
  filter is_section_header (List.map f blocks) = [].
Proof.
  intros Hf. induction blocks as [|g blocks IH]; simpl; [reflexivity|].
  now rewrite Hf.
Qed.

Lemma section_headers (blocks : list (str * list Item)) :
  filter is_section_header
    (concat (List.map (fun g => (nl ++ lit "## " ++ fst g ++ nl)
                                  :: List.map entry_line (snd g)) blocks))
  = List.map (fun g => nl ++ lit "## " ++ fst g ++ nl) blocks.
Proof.
  induction blocks as [|g blocks IH]; [reflexivity|].
  cbn [List.map concat].
  rewrite <- app_comm_cons. cbn [filter].
  change (is_section_header (nl ++ lit "## " ++ fst g ++ nl)) with true.
  cbv iota. f_equal.
  rewrite filter_app, (breakdown_not_headers entry_line) by reflexivity.
  exact IH.
Qed.

(** C10. Renderer self-consistency: a digest with items is laid out from
    one list of blocks. The total line gives as N the sum of the counts
    written on the breakdown lines, which is the number of items, and as M
    the number of blocks, which is the number of sources; there is one
    breakdown line per block, each of them non-empty and followed by the
    one empty line, and one detail section per block, so that the lines of
    the digest that open a section are M as well. *)
Theorem render_digest_consistent (date_str : str) (items : list Item) :
  items <> [] ->
  exists blocks : list (str * list Item),
    let n := list_sum (List.map (fun g => length (snd g)) blocks) in
    let m := length blocks in
    let breakdown :=
      List.map (fun g =>
                  lit "- " ++ fst g ++ lit ": " ++ str_of_nat (length (snd g))
                    ++ (if Nat.eqb (length (snd g)) 1 then lit " item"
                        else lit " items"))
               blocks in
    let sections :=
      List.map (fun g => (nl ++ lit "## " ++ fst g ++ nl)
                           :: List.map entry_line (snd g))
               blocks in
    let lines :=
      [heading date_str ++ nl;
       lit "**" ++ str_of_nat n ++ lit " items from " ++ str_of_nat m
         ++ lit " sources**" ++ nl;
       lit "## Summary by Source" ++ nl]
      ++ breakdown ++ [lit ""] ++ concat sections in
    render_digest date_str items = strip (join nl lines) ++ nl
    /\ n = length items
    /\ m = length (distinct_sources items)
    /\ length breakdown = m
    /\ Forall (fun line => line <> lit "") breakdown
    /\ length sections = m
    /\ length (filter is_section_header lines) = m.
Proof.
  intros Hne. exists (sorted_items (group_by_source items)). cbv zeta.
  destruct (blocks_spec items) as (_ & _ & _ & Hsum & Hm).
  split; [|split; [exact Hsum | split; [exact Hm|]]].
  - destruct items as [|it items]; [congruence|].
    unfold render_digest. rewrite digest_lines_eq. do 3 f_equal.
    unfold count_line, source_counts.
    rewrite Hsum, sorted_items_length, map_map, flat_map_concat_map.
    cbn [app]. do 3 f_equal. f_equal.
    apply map_ext. intros [k arr]. unfold breakdown_line, plural.
    cbn [fst snd]. destruct arr as [|a [|b arr]]; reflexivity.
  - split; [apply length_map|]. split; [|split; [apply length_map|]].
    + apply Forall_forall. intros line Hin.
      apply in_map_iff in Hin. destruct Hin as (g & <- & _). discriminate.
    + cbn [app].
      do 3 (rewrite filter_not_header by reflexivity).
      rewrite filter_app, breakdown_not_headers by reflexivity.
      cbn [app]. rewrite filter_not_header by reflexivity.
      etransitivity; [apply f_equal, section_headers | apply length_map].
Qed.

Lemma render_digest_consistent_witness :
  exists blocks : list (str * list Item),
    list_sum (List.map (fun g => length (snd g)) blocks) = 3
    /\ length blocks = 2
    /\ render_digest (lit "2024-01-01") Sample.three_items =
       strip (join nl
         ([heading (lit "2024-01-01") ++ nl;
           lit "**3 items from 2 sources**" ++ nl;
           lit "## Summary by Source" ++ nl]
          ++ List.map (fun g =>
                 lit "- " ++ fst g ++ lit ": " ++ str_of_nat (length (snd g))
                   ++ (if Nat.eqb (length (snd g)) 1 then lit " item"
                       else lit " items")) blocks
          ++ [lit ""]
          ++ concat (List.map (fun g => (nl ++ lit "## " ++ fst g ++ nl)
                                 :: List.map entry_line (snd g)) blocks)))
       ++ nl.
Proof.
  assert (Hne : Sample.three_items <> []) by discriminate.
  destruct (render_digest_consistent (lit "2024-01-01") Hne)
    as (blocks & Hr & Hn & Hm & _).
  exists blocks. rewrite Hr, Hn, Hm. repeat split.
Defined.

(* ===================================================================== *)
(** ** The scenario of the specification *)
(* ===================================================================== *)

(** Empty ledger, keyword qPCR, one source with an entry on qPCR and an
    unrelated one: one item is collected, the ledger gains one fingerprint
    and the digest counts "1 items from 1 sources". *)
Example scenario_qpcr :
  exists o details,
    main Sample.no_entities Sample.two_entries (lit "2024-01-01")
      [Sample.lab_news] [Sample.keyword (lit "qPCR")] None = Ok o
    /\ List.map title (collected_items o) = [lit "New qPCR robot"]
    /\ option_map hashes (saved o) =
       Some [lit "fe6581f096947fbd60c1c8e7e08b2aa706108c56cef2807d5110ef2dd01a6950"]
    /\ digest_md o =
       heading (lit "2024-01-01") ++ nl ++ nl
         ++ lit "**1 items from 1 sources**" ++ nl ++ nl
         ++ lit "## Summary by Source" ++ nl ++ nl
         ++ lit "- LabNews: 1 item" ++ nl ++ nl ++ nl
         ++ lit "## LabNews" ++ nl ++ nl ++ details.
Proof.
  eexists. eexists.
  split; [vm_compute; reflexivity|].
  split; [vm_compute; reflexivity|].
  split; vm_compute; reflexivity.
Qed.

(* ===================================================================== *)
(** ** More on strip *)
(* ===================================================================== *)

Lemma lstrip_idem (s : str) : lstrip (lstrip s) = lstrip s.
Proof.
  induction s as [|c s IH]; simpl; [reflexivity|].
  destruct (isspace c) eqn:E; [exact IH | simpl; now rewrite E].
Qed.

Lemma rstrip_idem (s : str) : rstrip (rstrip s) = rstrip s.
Proof. unfold rstrip. now rewrite rev_involutive, lstrip_idem. Qed.

Lemma lstrip_fixed (s : str) :
  lstrip s = s <-> s = [] \/ exists c s', s = c :: s' /\ isspace c = false.
Proof.
  split.
  - destruct s as [|c s]; [now left|]. simpl.
    destruct (isspace c) eqn:E; intros H.
    + exfalso. pose proof (lstrip_length s) as L. rewrite H in L. simpl in L. lia.
    + right. now exists c, s.
  - intros [-> | (c & s' & -> & E)]; [reflexivity | now apply lstrip_nonspace].
Qed.

(** What [rstrip] keeps is a prefix. *)
Lemma lstrip_suffix (s : str) : exists sp, s = sp ++ lstrip s.
Proof.
  induction s as [|c s [sp IH]]; simpl; [now exists []|].
  destruct (isspace c); [|now exists []].
  exists (c :: sp). simpl. now rewrite <- IH.
Qed.

Lemma rstrip_prefix (s : str) : exists sp, s = rstrip s ++ sp.
Proof.
  unfold rstrip. destruct (lstrip_suffix (rev s)) as [sp H].
  exists (rev sp). rewrite <- rev_app_distr, <- H. now rewrite rev_involutive.
Qed.

Lemma rstrip_keeps_front (s : str) : lstrip s = s -> lstrip (rstrip s) = rstrip s.
Proof.
  intros H. apply lstrip_fixed.
  destruct (rstrip s) as [|c r] eqn:E; [now left|]. right.
  exists c, r. split; [reflexivity|].
  destruct (rstrip_prefix s) as [sp Hs]. rewrite E in Hs.
  apply lstrip_fixed in H. destruct H as [-> | (c' & s' & -> & Hc)];
    [discriminate|].
  simpl in Hs. injection Hs as -> _. exact Hc.
Qed.

Lemma strip_trimmed (s : str) : trimmed (strip s).
Proof.
  unfold trimmed, strip. split.
  - apply rstrip_keeps_front, lstrip_idem.
  - apply rstrip_idem.
Qed.

Lemma firstn_keeps_front (n : nat) (s : str) :
  lstrip s = s -> lstrip (firstn n s) = firstn n s.
Proof.
  intros H. apply lstrip_fixed. apply lstrip_fixed in H.
  destruct H as [-> | (c & s' & -> & Hc)].
  - left. apply firstn_nil.
  - destruct n; [now left|]. right. now exists c, (firstn n s').
Qed.

Lemma no_space_lstrip (s : str) :
  forallb (fun c => negb (isspace c)) s = true -> lstrip s = s.
Proof.
  destruct s as [|c s]; simpl; [reflexivity|].
  intros H. apply andb_prop in H. destruct H as [Hc _].
  apply negb_true_iff in Hc. now rewrite Hc.
Qed.

Lemma no_space_strip (s : str) :
  forallb (fun c => negb (isspace c)) s = true -> strip s = s.
Proof.
  intros H. unfold strip. rewrite (no_space_lstrip s H).
  unfold rstrip. rewrite no_space_lstrip; [apply rev_involutive|].
  rewrite forallb_forall in *. intros c Hc. apply H. now apply in_rev.
Qed.

(* ===================================================================== *)
(** ** slug *)
(* ===================================================================== *)

Lemma slug_char_not_space (c : char) : slug_char c = true -> isspace c = false.
Proof.
  unfold slug_char, isspace. intros H.
  repeat (apply orb_prop in H; destruct H as [H | H]);
    repeat match goal with
           | H : (_ && _)%bool = true |- _ => apply andb_prop in H; destruct H
           | H : (_ <=? _)%N = true |- _ => apply N.leb_le in H
           | H : (_ =? _)%N = true |- _ => apply N.eqb_eq in H
           end;
    repeat match goal with
           | |- (_ || _)%bool = false => apply orb_false_intro
           | |- (_ && _)%bool = false => apply andb_false_iff
           end;
    try (apply N.eqb_neq; lia);
    try (left; apply N.leb_gt; lia); try (right; apply N.leb_gt; lia).
Qed.

Lemma sub_spaces_from_no_space (b : bool) (s : str) :
  forallb (fun c => negb (isspace c)) s = true -> sub_spaces_from b s = s.
Proof.
  revert b. induction s as [|c s IH]; intros b; simpl; [reflexivity|].
  intros H. apply andb_prop in H. destruct H as [Hc Hs].
  apply negb_true_iff in Hc. rewrite Hc. f_equal. now apply IH.
Qed.

Lemma filter_all {A} (f : A -> bool) (l : list A) :
  forallb f l = true -> filter f l = l.
Proof.
  induction l as [|x l IH]; simpl; [reflexivity|].
  intros H. apply andb_prop in H. destruct H as [Hx Hl].
  rewrite Hx. f_equal. now apply IH.
Qed.

Lemma slug_chars (lower : str -> str) (s : str) :
  forallb slug_char (slug lower s) = true.
Proof.
  unfold slug. apply forallb_forall. intros c Hc.
  apply filter_In in Hc. tauto.
Qed.

(** X1. A slug is made of lowercase ASCII letters, digits and hyphens only,
    and, when [str.lower] leaves such text as it is, the slug of a slug is
    that slug. *)
Theorem slug_idempotent (lower : str -> str) (s : str) :
  (forall t, forallb slug_char t = true -> lower t = t) ->
  forallb slug_char (slug lower s) = true
  /\ slug lower (slug lower s) = slug lower s.
Proof.
  intros Hlower. split; [apply slug_chars|].
  pose proof (slug_chars lower s) as Hchars.
  set (r := slug lower s) in *.
  assert (Hns : forallb (fun c => negb (isspace c)) r = true).
  { rewrite forallb_forall in *. intros c Hc.
    apply negb_true_iff, slug_char_not_space. now apply Hchars. }
  unfold slug at 1.
  rewrite (no_space_strip r Hns), (Hlower r Hchars).
  unfold sub_spaces. rewrite (sub_spaces_from_no_space false r Hns).
  now apply filter_all.
Qed.

Lemma slug_idempotent_witness :
  slug SampleRun.lower (lit "  Lab Automation:  qPCR/ELISA ") = lit "lab-automation-qpcrelisa"
  /\ slug SampleRun.lower (lit "lab-automation-qpcrelisa") = lit "lab-automation-qpcrelisa".
Proof.
  assert (Hlower : forall t, forallb slug_char t = true -> SampleRun.lower t = t).
  { intros t Ht. unfold SampleRun.lower.
    rewrite <- (map_id t) at 2. apply map_ext_in. intros c Hc.
    rewrite forallb_forall in Ht. specialize (Ht c Hc).
    unfold Sample.lower_ascii.
    destruct ((65 <=? c) && (c <=? 90))%N eqn:E; [|reflexivity].
    exfalso. apply andb_prop in E. destruct E as [E1 E2].
    apply N.leb_le in E1, E2. unfold slug_char in Ht.
    repeat (apply orb_prop in Ht; destruct Ht as [Ht | Ht]);
      repeat match goal with
             | H : (_ && _)%bool = true |- _ => apply andb_prop in H; destruct H
             | H : (_ <=? _)%N = true |- _ => apply N.leb_le in H
             | H : (_ =? _)%N = true |- _ => apply N.eqb_eq in H
             end; lia. }
  assert (E : slug SampleRun.lower (lit "  Lab Automation:  qPCR/ELISA ")
              = lit "lab-automation-qpcrelisa") by (vm_compute; reflexivity).
  split; [exact E|].
  rewrite <- E at 1.
  rewrite (proj2 (slug_idempotent SampleRun.lower
                    (lit "  Lab Automation:  qPCR/ELISA ") Hlower)).
  exact E.
Defined.

(* ===================================================================== *)
(** ** Tag stripping *)
(* ===================================================================== *)

Lemma sub_tags_from_length (skip : nat) (s : str) :
  length (sub_tags_from skip s) <= length s.
Proof.
  revert skip. induction s as [|c s IH]; intros skip; simpl; [lia|].
  destruct skip as [|k]; [|specialize (IH k); lia].
  destruct (c =? lt_sign)%N.
  - destruct (tag_len s) as [n|]; simpl;
      [specialize (IH n) | specialize (IH 0)]; lia.
  - simpl. specialize (IH 0). lia.
Qed.

Lemma sub_tags_plain (s : str) : ~ In lt_sign s -> sub_tags_from 0 s = s.
Proof.
  induction s as [|c s IH]; simpl; intros H; [reflexivity|].
  destruct (N.eqb_spec c lt_sign) as [E | _]; [tauto|].
  f_equal. apply IH. tauto.
Qed.

(** X2. Stripping tags never makes a text longer, and a text without [<]
    comes out as it is. *)
Theorem sub_tags_plain_text (s : str) :
  length (sub_tags s) <= length s
  /\ (~ In lt_sign s -> sub_tags s = s).
Proof.
  split; [apply sub_tags_from_length | apply sub_tags_plain].
Qed.

Lemma sub_tags_plain_text_witness :
  sub_tags (lit "1 > 0 & text") = lit "1 > 0 & text".
Proof.
  apply (proj2 (sub_tags_plain_text (lit "1 > 0 & text"))).
  vm_compute. intuition discriminate.
Defined.

Lemma tag_rest_close (name b : str) :
  ~ In lt_sign name -> ~ In gt_sign name ->
  tag_rest (name ++ gt_sign :: b) = Some (S (length name)).
Proof.
  induction name as [|c name IH]; simpl; intros Hl Hg; [reflexivity|].
  destruct (N.eqb_spec c gt_sign) as [E | _]; [tauto|].
  destruct (N.eqb_spec c lt_sign) as [E | _]; [tauto|].
  rewrite IH by tauto. reflexivity.
Qed.

Lemma sub_tags_from_skip (x y : str) :
  sub_tags_from (length x) (x ++ y) = sub_tags_from 0 y.
Proof.
  induction x as [|c x IH]; simpl; [reflexivity | exact IH].
Qed.

(** X3. A tag is dropped whole: in a text that has no [<] before it, [<],
    a name without [<] or [>] and [>] are removed, and stripping goes on
    after the [>]. *)
Theorem sub_tags_drops_tag (a name b : str) :
  ~ In lt_sign a -> name <> [] -> ~ In lt_sign name -> ~ In gt_sign name ->
  sub_tags (a ++ lt_sign :: name ++ gt_sign :: b) = a ++ sub_tags b.
Proof.
  intros Ha Hne Hl Hg. unfold sub_tags.
  induction a as [|c a IH]; simpl.
  - destruct name as [|n name]; [congruence|].
    simpl in Hl, Hg |- *.
    destruct (N.eqb_spec n lt_sign) as [E | _]; [tauto|].
    rewrite tag_rest_close by tauto. simpl.
    replace (name ++ gt_sign :: b) with ((name ++ [gt_sign]) ++ b)
      by (now rewrite <- app_assoc).
    replace (S (length name)) with (length (name ++ [gt_sign]))
      by (rewrite length_app; simpl; lia).
    change (sub_tags_from (length (name ++ [gt_sign])) (n :: (name ++ [gt_sign]) ++ b))
      with (sub_tags_from (length (n :: name)) ((n :: name) ++ [gt_sign] ++ b)).
    apply sub_tags_from_skip.
  - simpl in Ha.
    destruct (N.eqb_spec c lt_sign) as [E | _]; [tauto|].
    f_equal. apply IH. tauto.
Qed.

Lemma sub_tags_drops_tag_witness :
  sub_tags (lit "New <b>robot</b>") = lit "New robot".
Proof.
  change (lit "New <b>robot</b>")
    with (lit "New " ++ lt_sign :: lit "b" ++ gt_sign :: lit "robot</b>").
  rewrite sub_tags_drops_tag;
    [| vm_compute; intuition discriminate | discriminate
     | vm_compute; intuition discriminate | vm_compute; intuition discriminate].
  vm_compute. reflexivity.
Defined.

(* ===================================================================== *)
(** ** summarize, for any budget *)
(* ===================================================================== *)

Section SummarizeAny.

Variable unescape : str -> str.

Lemma summarize_cases (text : str) (max_chars : Z) :
  (1 <= max_chars)%Z ->
  summarize unescape text max_chars = [] /\ text = []
  \/ summarize unescape text max_chars = clean unescape text
     /\ length (clean unescape text) <= Z.to_nat max_chars
  \/ summarize unescape text max_chars =
       rstrip (firstn (Z.to_nat max_chars - 1) (clean unescape text))
         ++ [ellipsis]
     /\ Z.to_nat max_chars < length (clean unescape text).
Proof.
  intros Hpos. destruct text as [|c text]; [now left|]. right.
  unfold summarize.
  destruct (Z.leb_spec (Z.of_nat (length (clean unescape (c :: text))))
              max_chars) as [Hle | Hgt].
  - left. split; [reflexivity | lia].
  - right. split; [|lia].
    rewrite slice_to_firstn by lia.
    now replace (Z.to_nat (max_chars - 1)) with (Z.to_nat max_chars - 1) by lia.
Qed.

End SummarizeAny.

(** X4. Whatever the budget, as long as it is at least 1, a summary is no
    longer than the budget (280 by default, 320 in [main]). *)
Theorem summarize_within_budget (unescape : str -> str) (text : str)
    (max_chars : Z) :
  (1 <= max_chars)%Z ->
  length (summarize unescape text max_chars) <= Z.to_nat max_chars.
Proof.
  intros Hpos.
  destruct (summarize_cases unescape text Hpos)
    as [[-> _] | [[-> Hle] | [-> Hgt]]].
  - simpl. lia.
  - exact Hle.
  - rewrite length_app. change (length [ellipsis]) with 1.
    pose proof (rstrip_length
                  (firstn (Z.to_nat max_chars - 1) (clean unescape text))) as Hr.
    rewrite length_firstn in Hr. lia.
Qed.

Lemma summarize_within_budget_witness :
  length (summarize Sample.no_entities (lit "<p>A long   sentence.</p>") 8) <= 8
  /\ summarize Sample.no_entities (lit "<p>A long   sentence.</p>") 8
     = lit "A long" ++ [ellipsis].
Proof.
  split; [|vm_compute; reflexivity].
  apply (summarize_within_budget Sample.no_entities
           (lit "<p>A long   sentence.</p>") (max_chars := 8)).
  lia.
Defined.

(** X5. A summary has no whitespace at its start or at its end: the text is
    stripped before it is cut, and the cut is stripped again before the
    ellipsis is added. *)
Theorem summarize_trimmed (unescape : str -> str) (text : str)
    (max_chars : Z) :
  (1 <= max_chars)%Z ->
  trimmed (summarize unescape text max_chars).
Proof.
  intros Hpos.
  destruct (summarize_cases unescape text Hpos)
    as [[-> _] | [[-> _] | [-> _]]].
  - split; reflexivity.
  - apply strip_trimmed.
  - assert (Hfront : lstrip (rstrip (firstn (Z.to_nat max_chars - 1)
                                       (clean unescape text)))
                     = rstrip (firstn (Z.to_nat max_chars - 1)
                                 (clean unescape text))).
    { apply rstrip_keeps_front, firstn_keeps_front.
      apply (proj1 (strip_trimmed _)). }
    split.
    + destruct (rstrip (firstn (Z.to_nat max_chars - 1) (clean unescape text)))
        as [|c r] eqn:E; [reflexivity|].
      rewrite lstrip_app; [now rewrite Hfront | rewrite Hfront; discriminate].
    + apply rstrip_app. discriminate.
Qed.

Lemma summarize_trimmed_witness :
  trimmed (summarize Sample.no_entities (lit "<p>A long   sentence.</p>") 8).
Proof.
  apply summarize_trimmed. lia.
Defined.

(* ===================================================================== *)
(** ** More on hash_item *)
(* ===================================================================== *)

Lemma compress_length (h block : list N) :
  length h = 8 -> length (SHA256.compress h block) = 8.
Proof.
  intros Hh. unfold SHA256.compress.
  rewrite length_map, length_combine, Hh. reflexivity.
Qed.

Lemma fold_compress_length (blocks : list (list N)) (h : list N) :
  length h = 8 -> length (fold_left SHA256.compress blocks h) = 8.
Proof.
  revert h. induction blocks as [|b blocks IH]; intros h Hh; simpl;
    [exact Hh | now apply IH, compress_length].
Qed.

Lemma be_bytes_octets (k : nat) (x : N) :
  Forall (fun b => (b < 256)%N) (SHA256.be_bytes k x).
Proof.
  induction k as [|k IH]; simpl; constructor; [|exact IH].
  apply N.mod_lt. discriminate.
Qed.

Lemma digest_length (msg : list N) : length (SHA256.digest msg) = 32.
Proof.
  unfold SHA256.digest.
  set (h := fold_left SHA256.compress _ SHA256.H0).
  assert (Hh : length h = 8) by (apply fold_compress_length; reflexivity).
  clearbody h.
  do 9 (destruct h as [|? h]; try discriminate).
  reflexivity.
Qed.

Lemma digest_octets (msg : list N) :
  Forall (fun b => (b < 256)%N) (SHA256.digest msg).
Proof.
  unfold SHA256.digest. apply Forall_flat_map, Forall_forall.
  intros x _. apply be_bytes_octets.
Qed.

Lemma hex_digit_hex (d : N) : (d < 16)%N -> hex_char (SHA256.hex_digit d) = true.
Proof.
  intros Hd. unfold SHA256.hex_digit, hex_char.
  destruct (N.ltb_spec d 10).
  - apply orb_true_intro. left.
    apply andb_true_intro. split; apply N.leb_le; lia.
  - apply orb_true_intro. right.
    apply andb_true_intro. split; apply N.leb_le; lia.
Qed.

Lemma hex_of_octets (bs : list N) :
  Forall (fun b => (b < 256)%N) bs ->
  let hex := flat_map (fun b => [SHA256.hex_digit (b / 16);
                                 SHA256.hex_digit (b mod 16)]) bs in
  length hex = 2 * length bs /\ forallb hex_char hex = true.
Proof.
  cbv zeta. induction 1 as [|b bs Hb Hbs [IHl IHh]]; simpl; [now split|].
  split; [lia|].
  rewrite !hex_digit_hex, IHh; [reflexivity | |].
  - apply N.mod_lt. discriminate.
  - apply N.Div0.div_lt_upper_bound. lia.
Qed.

Lemma hexdigest_shape (msg : list N) :
  length (SHA256.hexdigest msg) = 64
  /\ forallb hex_char (SHA256.hexdigest msg) = true.
Proof.
  unfold SHA256.hexdigest.
  destruct (hex_of_octets (digest_octets msg)) as [Hl Hh].
  rewrite Hl, digest_length. now split.
Qed.

(** X6. A fingerprint is always 64 lowercase hexadecimal digits, whatever
    the title and the link. *)
Theorem hash_item_shape (title link : option str) (h : str) :
  hash_item title link = Ok h ->
  length h = 64 /\ forallb hex_char h = true.
Proof.
  rewrite hash_item_concat.
  destruct (encode (or_empty title ++ or_empty link)) as [b|]; simpl;
    [|discriminate].
  intros E. injection E as <-. apply hexdigest_shape.
Qed.

Lemma hash_item_shape_witness :
  exists h, hash_item (Some (lit "New qPCR robot")) None = Ok h
            /\ length h = 64 /\ forallb hex_char h = true.
Proof.
  eexists. 
  assert (E : hash_item (Some (lit "New qPCR robot")) None = Ok _)
    by (vm_compute; reflexivity).
  split; [exact E|]. exact (hash_item_shape _ _ E).
Defined.

Lemma encode_char_cases (c : char) :
  if encodable c then exists bs, encode_char c = Ok bs
  else encode_char c = Raise UnicodeEncodeError.
Proof.
  unfold encodable, encode_char.
  destruct (N.ltb_spec c 128); destruct (N.ltb_spec c 2048);
    destruct (N.leb_spec 55296 c); destruct (N.leb_spec c 57343);
    destruct (N.ltb_spec c 65536); destruct (N.ltb_spec c 1114112);
    simpl; eauto; lia.
Qed.

Lemma encode_cases (s : str) :
  if forallb encodable s then exists bs, encode s = Ok bs
  else encode s = Raise UnicodeEncodeError.
Proof.
  induction s as [|c s IH]; simpl; [eauto|].
  pose proof (encode_char_cases c) as Hc.
  destruct (encodable c); simpl.
  - destruct Hc as [bs ->]. simpl.
    destruct (forallb encodable s).
    + destruct IH as [rest ->]. simpl. eauto.
    + now rewrite IH.
  - now rewrite Hc.
Qed.

(** X7. [hash_item] returns a fingerprint exactly when every character of
    the title and of the link can be encoded; a lone surrogate in either
    makes it raise UnicodeEncodeError. *)
Theorem hash_item_raises (title link : option str) :
  (forallb encodable (or_empty title ++ or_empty link) = true ->
   exists h, hash_item title link = Ok h)
  /\ (forallb encodable (or_empty title ++ or_empty link) = false ->
      hash_item title link = Raise UnicodeEncodeError).
Proof.
  rewrite hash_item_concat.
  pose proof (encode_cases (or_empty title ++ or_empty link)) as H.
  split; intros E; rewrite E in H.
  - destruct H as [bs ->]. simpl. eauto.
  - now rewrite H.
Qed.

Lemma hash_item_raises_witness :
  hash_item (Some [55296%N]) (Some (lit "http://a")) = Raise UnicodeEncodeError
  /\ exists h, hash_item (Some [233%N; 8230%N]) None = Ok h.
Proof.
  split.
  - apply (proj2 (hash_item_raises (Some [55296%N]) (Some (lit "http://a")))).
    reflexivity.
  - apply (proj1 (hash_item_raises (Some [233%N; 8230%N]) None)).
    reflexivity.
Defined.

(* ===================================================================== *)
(** ** More on render_digest *)
(* ===================================================================== *)

Lemma sections_not_blank (blocks : list (str * list Item)) :
  blocks <> [] ->
  rstrip (nl ++ join nl (flat_map section_lines blocks)) <> [].
Proof.
  intros Hne. destruct blocks as [|g blocks]; [congruence|].
  apply rstrip_not_nil with 35%N; [|reflexivity].
  apply in_or_app. right.
  change (flat_map section_lines (g :: blocks))
    with ((nl ++ lit "## " ++ fst g ++ nl)
            :: List.map entry_line (snd g) ++ flat_map section_lines blocks).
  apply join_head_In. simpl. tauto.
Qed.

(** X8. Every digest, with or without items, starts with the heading line
    and ends with exactly one newline: what comes before that newline has
    no whitespace at its end. *)
Theorem render_digest_frame (date_str : str) (items : list Item) :
  exists body,
    render_digest date_str items = heading date_str ++ nl ++ body ++ nl
    /\ rstrip (heading date_str ++ nl ++ body) = heading date_str ++ nl ++ body.
Proof.
  destruct items as [|it items].
  - exists (nl ++ lit "_No matching items today._"). split.
    + unfold render_digest. now rewrite <- !app_assoc.
    + repeat (rewrite rstrip_app;
              [| repeat apply rstrip_app_not_nil; discriminate]).
      reflexivity.
  - assert (Hne : it :: items <> []) by discriminate.
    pose proof (sections_not_blank (group_by_source_not_nil Hne)) as Hsecs.
    rewrite (render_digest_layout date_str Hne).
    set (R := rstrip (nl ++ join nl (flat_map section_lines
                        (sorted_items (group_by_source (it :: items)))))) in *.
    assert (HR : rstrip R = R) by apply rstrip_idem.
    clearbody R.
    exists (nl ++ count_line (length (it :: items))
                    (length (group_by_source (it :: items))) ++ nl
              ++ lit "## Summary by Source" ++ nl ++ nl
              ++ concat (List.map (fun b => b ++ nl)
                   (List.map breakdown_line
                      (source_counts (group_by_source (it :: items)))))
              ++ R).
    split.
    + rewrite <- ?app_assoc. reflexivity.
    + rewrite <- ?app_assoc.
      repeat (rewrite rstrip_app;
              [| repeat apply rstrip_app_not_nil; rewrite HR; exact Hsecs]).
      now rewrite HR.
Qed.

Lemma setdefault_append_items (d : list (str * list Item)) (k : str) (it : Item) :
  Permutation (flat_map snd (setdefault_append d k it)) (it :: flat_map snd d).
Proof.
  induction d as [|[k0 arr] d IH]; simpl; [apply Permutation_refl|].
  destruct (str_eqb k0 k); simpl.
  - rewrite <- app_assoc. simpl. apply Permutation_sym, Permutation_middle.
  - apply perm_trans with (arr ++ it :: flat_map snd d).
    + now apply Permutation_app_head.
    + apply Permutation_sym, Permutation_middle.
Qed.

Lemma group_by_source_items (items : list Item) :
  Permutation (flat_map snd (group_by_source items)) items.
Proof.
  induction items as [|it items IH] using rev_ind; [apply Permutation_refl|].
  rewrite group_by_source_snoc.
  apply perm_trans with (it :: flat_map snd (group_by_source items));
    [apply setdefault_append_items|].
  apply perm_trans with (it :: items); [now constructor|].
  apply Permutation_cons_append.
Qed.

(** X9. No item is lost or repeated by the grouping: the entries of the
    detail sections, taken block after block, are the items of the list,
    each one once. *)
Theorem render_digest_every_item (items : list Item) :
  let blocks := sorted_items (group_by_source items) in
  Permutation (flat_map snd blocks) items
  /\ flat_map section_lines blocks =
     flat_map (fun g => (nl ++ lit "## " ++ fst g ++ nl)
                          :: List.map entry_line (snd g)) blocks.
Proof.
  cbv zeta. split; [|reflexivity].
  apply perm_trans with (flat_map snd (group_by_source items));
    [|apply group_by_source_items].
  apply Permutation_flat_map, sorted_items_perm.
Qed.

Lemma str_lt_irrefl (a : str) : ~ str_lt a a.
Proof.
  unfold str_lt. rewrite (proj2 (str_compare_eq a a) eq_refl). discriminate.
Qed.

(** Two strictly increasing lists with the same elements are the same. *)
Lemma sorted_keys_unique (l1 l2 : list str) :
  StronglySorted str_lt l1 -> StronglySorted str_lt l2 ->
  (forall k, In k l1 <-> In k l2) -> l1 = l2.
Proof.
  intros H1. revert l2.
  induction H1 as [|a l1 Hs1 IH Ha]; intros l2 H2 Hin.
  - destruct l2 as [|b l2]; [reflexivity|].
    exfalso. apply (proj2 (Hin b)). now left.
  - inversion H2 as [|b l2' Hs2 Hb]; subst.
    + exfalso. apply (proj1 (Hin a)). now left.
    + rewrite Forall_forall in Ha, Hb.
      assert (Eab : a = b).
      { destruct (proj1 (Hin a) (or_introl eq_refl)) as [E | Hin2];
          [now symmetry|].
        destruct (proj2 (Hin b) (or_introl eq_refl)) as [E | Hin1];
          [exact E|].
        exfalso. apply (str_lt_irrefl (a := a)).
        apply str_lt_trans with b; [now apply Ha | now apply Hb]. }
      subst b. f_equal. apply IH; [exact Hs2|].
      intros k. split; intros Hk.
      * destruct (proj1 (Hin k) (or_intror Hk)) as [E | Hk2]; [|exact Hk2].
        subst k. exfalso. apply (str_lt_irrefl (a := a)). now apply Ha.
      * destruct (proj2 (Hin k) (or_intror Hk)) as [E | Hk1]; [|exact Hk1].
        subst k. exfalso. apply (str_lt_irrefl (a := a)). now apply Hb.
Qed.

Lemma of_source_In (k : str) (items : list Item) :
  In k (List.map source items) <-> of_source k items <> [].
Proof.
  unfold of_source. split.
  - intros Hin E. apply in_map_iff in Hin. destruct Hin as (it & Es & Hit).
    assert (Hf : In it (filter (fun it0 => str_eqb (source it0) k) items))
      by (apply filter_In; split; [exact Hit | now apply str_eqb_eq]).
    now rewrite E in Hf.
  - intros Hne.
    destruct (filter (fun it => str_eqb (source it) k) items) as [|it r] eqn:E;
      [congruence|].
    assert (Hf : In it (filter (fun it0 => str_eqb (source it0) k) items))
      by (rewrite E; now left).
    apply filter_In in Hf. destruct Hf as [Hit Es].
    apply str_eqb_eq in Es. subst k. now apply in_map.
Qed.

Lemma blocks_determined (b1 b2 : list (str * list Item))
    (F1 F2 : str -> list Item) :
  List.map fst b1 = List.map fst b2 ->
  Forall (fun g => snd g = F1 (fst g)) b1 ->
  Forall (fun g => snd g = F2 (fst g)) b2 ->
  (forall k, F1 k = F2 k) -> b1 = b2.
Proof.
  intros Hk H1. revert b2 Hk.
  induction H1 as [|[k1 a1] b1 Hg1 _ IH]; intros [|[k2 a2] b2] Hk H2 HF;
    try discriminate; [reflexivity|].
  inversion H2 as [|? ? Hg2 H2']; subst. simpl in *.
  injection Hk as -> Hk. rewrite Hg1, Hg2, HF. f_equal. now apply IH.
Qed.

(** X10. The digest depends on the items only through the list of items of
    each source: two lists that agree source by source, however the
    sources are interleaved, give the same text. *)
Theorem render_digest_by_source (date_str : str) (items1 items2 : list Item) :
  (forall k, of_source k items1 = of_source k items2) ->
  render_digest date_str items1 = render_digest date_str items2.
Proof.
  intros Hsame.
  destruct (blocks_spec items1) as (Hs1 & Hk1 & Hb1 & Hsum1 & _).
  destruct (blocks_spec items2) as (Hs2 & Hk2 & Hb2 & Hsum2 & _).
  assert (Hblocks : sorted_items (group_by_source items1)
                    = sorted_items (group_by_source items2)).
  { apply blocks_determined
      with (F1 := fun k => of_source k items1) (F2 := fun k => of_source k items2).
    - apply sorted_keys_unique; trivial.
      intros k. now rewrite Hk1, Hk2, !of_source_In, Hsame.
    - revert Hb1. apply Forall_impl. tauto.
    - revert Hb2. apply Forall_impl. tauto.
    - exact Hsame. }
  assert (Hlen : length items1 = length items2)
    by (now rewrite <- Hsum1, <- Hsum2, Hblocks).
  assert (Hglen : length (group_by_source items1)
                  = length (group_by_source items2))
    by (rewrite <- (sorted_items_length (group_by_source items1)),
                <- (sorted_items_length (group_by_source items2));
        now rewrite Hblocks).
  destruct items1 as [|i1 r1]; destruct items2 as [|i2 r2];
    try discriminate; [reflexivity|].
  unfold render_digest. rewrite !digest_lines_eq.
  unfold source_counts. now rewrite Hblocks, Hlen, Hglen.
Qed.

Lemma render_digest_by_source_witness :
  render_digest (lit "2024-01-01") Sample.three_items =
  render_digest (lit "2024-01-01")
    [Sample.item "Cell" "c1"; Sample.item "Nature" "n1"; Sample.item "Nature" "n2"].
Proof.
  apply render_digest_by_source.
  intros k. unfold of_source, Sample.three_items, Sample.item, filter.
  cbn [source].
  destruct (str_eqb (lit "Nature") k) eqn:E1;
    destruct (str_eqb (lit "Cell") k) eqn:E2; try reflexivity.
  apply str_eqb_eq in E1, E2. rewrite <- E1 in E2. discriminate.
Defined.

(* ===================================================================== *)
(** ** More on the loops and the cap *)
(* ===================================================================== *)

Lemma foldM_rel_in {S X} (body : S -> X -> result S) (R : S -> S -> Prop)
    (l : list X) :
  (forall s, R s s) ->
  (forall a b c, R a b -> R b c -> R a c) ->
  (forall s x s', In x l -> body s x = Ok s' -> R s s') ->
  forall s s', foldM body l s = Ok s' -> R s s'.
Proof.
  intros Hrefl Htrans. induction l as [|x l IH]; intros Hstep s s'; simpl.
  - intros E. injection E as <-. apply Hrefl.
  - destruct (body s x) as [s1|] eqn:E1; simpl; [|discriminate].
    intros E. apply Htrans with s1.
    + apply Hstep with x; [now left | exact E1].
    + apply IH; [|exact E]. intros s0 y s0' Hy. apply Hstep. now right.
Qed.

Lemma NoDup_snoc {A} (l : list A) (x : A) :
  NoDup l -> ~ In x l -> NoDup (l ++ [x]).
Proof.
  induction l as [|a l IH]; simpl; intros Hl Hx.
  - constructor; [tauto | constructor].
  - apply NoDup_cons_iff in Hl. destruct Hl as [Ha Hl].
    constructor; [|apply IH; tauto].
    rewrite in_app_iff. simpl. intuition congruence.
Qed.

Lemma NoDup_skipn {A} (n : nat) (l : list A) : NoDup l -> NoDup (skipn n l).
Proof.
  intros H. rewrite <- (firstn_skipn n l) in H.
  now apply NoDup_app_remove_l in H.
Qed.

Lemma cap_NoDup (seen : Seen) : NoDup (hashes seen) -> NoDup (hashes (cap seen)).
Proof.
  intros H. unfold cap.
  destruct (Z.of_nat (length (hashes seen)) >? max_len seen)%Z; [|exact H].
  simpl. unfold slice_from. now apply NoDup_skipn.
Qed.

Section LoopsMore.

Variable unescape : str -> str.
Variable parse : str -> list Entry.
Variable kw : list Pattern.

Lemma process_entry_NoDup (name : str) (st : loop_state) (e : Entry)
    (st' : loop_state) :
  process_entry unescape kw name st e = Ok st' ->
  NoDup (snd st) -> NoDup (snd st').
Proof.
  rewrite process_entry_eq.
  destruct (fingerprint e) as [h|]; simpl; [|discriminate].
  destruct (contains h (snd st)) eqn:Ec; [now intros E; injection E as <-|].
  destruct (filtered_out kw e); [now intros E; injection E as <-|].
  intros E; injection E as <-. simpl. intros Hnd.
  apply NoDup_snoc; [exact Hnd|].
  intros Hin. apply contains_In in Hin. congruence.
Qed.

Lemma collect_NoDup (feeds : list Feed) (hs : list str) (st' : loop_state) :
  collect unescape parse feeds kw hs = Ok st' -> NoDup hs -> NoDup (snd st').
Proof.
  unfold collect.
  apply (@foldM_rel _ _ (process_feed unescape parse kw)
           (fun a b => NoDup (snd a) -> NoDup (snd b))); auto.
  intros s f s'. unfold process_feed.
  apply (@foldM_rel _ _ (process_entry unescape kw (f_name f))
           (fun a b => NoDup (snd a) -> NoDup (snd b))); auto.
  intros s0 e s0'. apply process_entry_NoDup.
Qed.

Lemma process_entry_origin (Q : Item -> Prop) (name : str) (st : loop_state)
    (e : Entry) (st' : loop_state) :
  Q (item_of unescape name e) ->
  process_entry unescape kw name st e = Ok st' ->
  Forall Q (fst st) -> Forall Q (fst st').
Proof.
  intros HQ. rewrite process_entry_eq.
  destruct (fingerprint e) as [h|]; simpl; [|discriminate].
  destruct (contains h (snd st)); [now intros E; injection E as <-|].
  destruct (filtered_out kw e); [now intros E; injection E as <-|].
  intros E; injection E as <-. simpl. intros H.
  apply Forall_app. split; [exact H | now constructor].
Qed.

Lemma collect_origin (feeds : list Feed) (hs : list str) (st' : loop_state) :
  collect unescape parse feeds kw hs = Ok st' ->
  Forall (fun it => exists f e,
            In f feeds /\ In e (parse (f_url f))
            /\ it = item_of unescape (f_name f) e) (fst st').
Proof.
  unfold collect. intros H.
  set (Q := fun it => exists f e,
              In f feeds /\ In e (parse (f_url f))
              /\ it = item_of unescape (f_name f) e).
  refine (@foldM_rel_in _ _ (process_feed unescape parse kw)
            (fun a b => Forall Q (fst a) -> Forall Q (fst b)) feeds
            (fun _ Ha => Ha) (fun _ _ _ H1 H2 Ha => H2 (H1 Ha)) _ _ _ H
            (Forall_nil _)).
  intros s f s' Hf Hs. unfold process_feed in Hs.
  refine (@foldM_rel_in _ _ (process_entry unescape kw (f_name f))
            (fun a b => Forall Q (fst a) -> Forall Q (fst b)) (parse (f_url f))
            (fun _ Ha => Ha) (fun _ _ _ H1 H2 Ha => H2 (H1 Ha)) _ _ _ Hs).
  intros s0 e s0' He. apply process_entry_origin. now exists f, e.
Qed.

End LoopsMore.

(** X11. A seen list without duplicates stays so: a run appends a
    fingerprint only when it is not in the list, and the cap keeps a part
    of the list. *)
Theorem main_ledger_no_duplicates
    (unescape : str -> str) (parse : str -> list Entry)
    (today : str) (feeds : list Feed) (kw : list Pattern)
    (file : option Seen) (o : Outcome) :
  NoDup (hashes (load_seen file)) ->
  main unescape parse today feeds kw file = Ok o ->
  exists state,
    saved o = Some state
    /\ NoDup (hashes state)
    /\ max_len state = max_len (load_seen file).
Proof.
  intros Hnd Hrun.
  destruct (main_ok _ _ _ _ _ _ Hrun) as (c & hs' & Hc & ->).
  eexists. split; [reflexivity|]. split.
  - apply cap_NoDup. simpl.
    change hs' with (snd (c, hs')). eapply collect_NoDup; eassumption.
  - now rewrite cap_max_len.
Qed.

Lemma main_ledger_no_duplicates_witness :
  exists o state,
    main Sample.no_entities (fun url => Sample.two_entries url ++ Sample.two_entries url)
      (lit "2024-01-01") [Sample.lab_news] [] None = Ok o
    /\ saved o = Some state
    /\ length (hashes state) = 2
    /\ NoDup (hashes state).
Proof.
  eexists.
  assert (Hrun : main Sample.no_entities
            (fun url => Sample.two_entries url ++ Sample.two_entries url)
            (lit "2024-01-01") [Sample.lab_news] [] None = Ok _)
    by (vm_compute; reflexivity).
  assert (Hnd : NoDup (hashes (load_seen None))) by constructor.
  destruct (main_ledger_no_duplicates _ _ _ _ _ _ Hnd Hrun)
    as (state & Hs & Hstate & _).
  exists state. split; [exact Hrun|]. split; [exact Hs|].
  split; [|exact Hstate].
  simpl in Hs. injection Hs as <-. vm_compute. reflexivity.
Defined.

(** X12. A run invents nothing: every collected item is the item of an
    entry of a configured feed, under the name of that feed, with the title
    and link as read and the summary cut to 320 characters. *)
Theorem main_items_from_feeds
    (unescape : str -> str) (parse : str -> list Entry)
    (today : str) (feeds : list Feed) (kw : list Pattern)
    (file : option Seen) (o : Outcome) :
  main unescape parse today feeds kw file = Ok o ->
  Forall (fun it => exists f e,
            In f feeds /\ In e (parse (f_url f))
            /\ it = {| source := f_name f;
                       title := or_empty (e_title e);
                       link := or_empty (e_link e);
                       summary := summarize unescape (raw_summary e) 320;
                       published := raw_published e |})
         (collected_items o).
Proof.
  intros Hrun.
  destruct (main_ok _ _ _ _ _ _ Hrun) as (c & hs' & Hc & ->).
  change c with (fst (c, hs')). eapply collect_origin; eassumption.
Qed.

Lemma main_items_from_feeds_witness :
  exists o,
    main Sample.no_entities Sample.two_entries (lit "2024-01-01")
      [Sample.lab_news] [Sample.keyword (lit "qPCR")] None = Ok o
    /\ Forall (fun it => source it = lit "LabNews") (collected_items o).
Proof.
  eexists.
  assert (Hrun : main Sample.no_entities Sample.two_entries (lit "2024-01-01")
            [Sample.lab_news] [Sample.keyword (lit "qPCR")] None = Ok _)
    by (vm_compute; reflexivity).
  split; [exact Hrun|].
  pose proof (main_items_from_feeds _ _ _ _ _ _ Hrun) as H.
  revert H. apply Forall_impl.
  intros it (f & e & [<- | []] & _ & ->). reflexivity.
Defined.

(** X13. A run that stays within the cap records every entry it lets
    through: for each entry of each feed, the fingerprint is in the saved
    list unless the keywords reject the entry. *)
Theorem main_records_every_entry
    (unescape : str -> str) (parse : str -> list Entry)
    (today : str) (feeds : list Feed) (kw : list Pattern)
    (file : option Seen) (o : Outcome) :
  main unescape parse today feeds kw file = Ok o ->
  (Z.of_nat (length (hashes (load_seen file)) + length (collected_items o))
   <= max_len (load_seen file))%Z ->
  exists state,
    saved o = Some state
    /\ forall f e, In f feeds -> In e (parse (f_url f)) ->
         exists h, fingerprint e = Ok h
                   /\ (In h (hashes state) \/ filtered_out kw e = true).
Proof.
  intros Hrun Hfit.
  destruct (main_ok _ _ _ _ _ _ Hrun) as (c & hs' & Hc & ->).
  simpl in Hfit |- *.
  destruct (collect_extends _ _ _ _ _ Hc) as (new & fps & Hnew & Hfps & F).
  simpl in Hnew, Hfps. subst c hs'.
  apply Forall2_length in F.
  rewrite cap_within by (simpl; rewrite length_app; lia).
  eexists. split; [reflexivity|].
  intros f e Hf He. exact (collect_skipped _ _ _ _ _ Hc f Hf e He).
Qed.

Lemma main_records_every_entry_witness :
  exists o state h,
    main Sample.no_entities Sample.two_entries (lit "2024-01-01")
      [Sample.lab_news] [] None = Ok o
    /\ saved o = Some state
    /\ fingerprint (Sample.entry "Unrelated" "http://b" "...") = Ok h
    /\ In h (hashes state).
Proof.
  eexists.
  assert (Hrun : main Sample.no_entities Sample.two_entries (lit "2024-01-01")
            [Sample.lab_news] [] None = Ok _)
    by (vm_compute; reflexivity).
  destruct (main_records_every_entry _ _ _ _ _ _ Hrun) as (state & Hs & Hall);
    [vm_compute; discriminate|].
  destruct (Hall Sample.lab_news (Sample.entry "Unrelated" "http://b" "..."))
    as (h & Hh & [Hin | Hout]);
    [now left | simpl; tauto | | vm_compute in Hout; discriminate].
  exists state, h.
  split; [exact Hrun|]. split; [exact Hs|]. split; [exact Hh | exact Hin].
Defined.

(** The second of two runs over the same feeds, when the first stayed
    within the cap. *)
Lemma main_again
    (unescape : str -> str) (parse : str -> list Entry)
    (today today' : str) (feeds : list Feed) (kw : list Pattern)
    (file : option Seen) (o1 : Outcome) :
  main unescape parse today feeds kw file = Ok o1 ->
  (Z.of_nat (length (hashes (load_seen file)) + length (collected_items o1))
   <= max_len (load_seen file))%Z ->
  main unescape parse today' feeds kw (saved o1) =
  Ok {| digest_md := render_digest today' [];
        saved := saved o1; collected_items := [] |}.
Proof.
  intros Hrun Hfit.
  destruct (main_ok _ _ _ _ _ _ Hrun) as (c & hs' & Hc & ->).
  simpl in Hfit |- *.
  destruct (collect_extends _ _ _ _ _ Hc) as (new & fps & Hnew & Hfps & F).
  simpl in Hnew, Hfps. subst c hs'.
  apply Forall2_length in F.
  rewrite cap_within by (simpl; rewrite length_app; lia).
  unfold main. simpl.
  rewrite collect_again.
  - simpl. rewrite cap_within by (simpl; rewrite length_app; lia). reflexivity.
  - intros f Hf e He. exact (collect_skipped _ _ _ _ _ Hc f Hf e He).
Qed.

(** X14. With a [max_len] that is not positive the cap does not bound the
    list: 0 keeps every entry, and a negative value -k drops the k oldest
    entries and keeps all the others. *)
Theorem cap_not_positive (seen : Seen) :
  (max_len seen <= 0)%Z ->
  hashes (cap seen) = skipn (Z.to_nat (- max_len seen)) (hashes seen).
Proof.
  intros Hm. unfold cap.
  destruct (Z.gtb_spec (Z.of_nat (length (hashes seen))) (max_len seen))
    as [Hgt | Hle]; simpl.
  - unfold slice_from.
    destruct (Z.ltb_spec (- max_len seen) 0) as [Hneg | _]; [lia|].
    destruct (Z.min_spec (- max_len seen) (Z.of_nat (length (hashes seen))))
      as [[_ ->] | [Hge ->]]; [reflexivity|].
    rewrite Nat2Z.id, skipn_all. symmetry. apply skipn_all2. lia.
  - assert (E : hashes seen = []) by (destruct (hashes seen); [reflexivity | simpl in Hle; lia]).
    rewrite E. now rewrite skipn_nil.
Qed.

Lemma cap_not_positive_witness :
  hashes (cap {| hashes := [lit "A"; lit "B"; lit "C"]; max_len := 0 |})
    = [lit "A"; lit "B"; lit "C"]
  /\ hashes (cap {| hashes := [lit "A"; lit "B"; lit "C"]; max_len := -1 |})
     = [lit "B"; lit "C"].
Proof.
  split.
  - rewrite cap_not_positive by (simpl; lia). reflexivity.
  - rewrite cap_not_positive by (simpl; lia). reflexivity.
Defined.


(** X15. Capping twice is capping once, for any [max_len] from 0 up. *)
Theorem cap_idempotent (seen : Seen) :
  (0 <= max_len seen)%Z -> cap (cap seen) = cap seen.
Proof.
  intros Hm. destruct (Z.eq_dec (max_len seen) 0) as [E0 | Hne].
  - destruct seen as [l m]. simpl in E0. subst m.
    now rewrite !cap_zero_keeps_all.
  - apply cap_within. rewrite cap_max_len, cap_hashes by lia.
    rewrite length_skipn. lia.
Qed.

Lemma cap_idempotent_witness :
  cap (cap {| hashes := [lit "A"; lit "B"; lit "C"; lit "D"]; max_len := 3 |})
  = {| hashes := [lit "B"; lit "C"; lit "D"]; max_len := 3 |}.
Proof.
  rewrite cap_idempotent by (simpl; lia). reflexivity.
Defined.

(* ===================================================================== *)
(** ** load_config *)
(* ===================================================================== *)

Lemma compile_all_ok (compile : str -> option Pattern) (keywords : list str)
    (kw : list Pattern) :
  compile_all compile keywords = inr kw <->
  Forall2 (fun k p => compile k = Some p) keywords kw.
Proof.
  revert kw. induction keywords as [|k ks IH]; intros kw; simpl.
  - split.
    + intros E. injection E as <-. constructor.
    + intros H. inversion H. reflexivity.
  - destruct (compile k) as [p|] eqn:Ek.
    + destruct (compile_all compile ks) as [e | ps] eqn:Eks.
      * split; [discriminate|]. intros H. inversion H as [|? ? ? ps' Hk Hks]; subst.
        apply IH in Hks. discriminate.
      * split.
        -- intros E. injection E as <-. constructor; [exact Ek | now apply IH].
        -- intros H. inversion H as [|? p' ? ps' Hk Hks]; subst.
           apply IH in Hks. injection Hks as ->. congruence.
    + split; [discriminate|]. intros H. inversion H; subst. congruence.
Qed.

(** X16. The patterns of a configuration are its keywords compiled one by
    one in their order, a missing [keywords] or [feeds] key counting as an
    empty list; the feeds are taken as they are. *)
Theorem load_config_ok (compile : str -> option Pattern) (cfg : Yaml)
    (feeds : list Feed) (kw : list Pattern) :
  load_config compile (Some cfg) = inr (feeds, kw) <->
  feeds = dict_get (y_feeds cfg) []
  /\ Forall2 (fun k p => compile k = Some p) (dict_get (y_keywords cfg) []) kw.
Proof.
  unfold load_config.
  destruct (compile_all compile (dict_get (y_keywords cfg) [])) as [e | ps] eqn:E.
  - split; [discriminate|]. intros [_ H]. apply compile_all_ok in H. congruence.
  - apply compile_all_ok in E. split.
    + intros H. injection H as <- <-. now split.
    + intros [-> H]. apply compile_all_ok in H.
      apply compile_all_ok in E. rewrite E in H. injection H as ->. reflexivity.
Qed.

Lemma load_config_ok_witness :
  exists kw,
    load_config SampleRun.compile (Some SampleRun.sources)
      = inr ([Sample.lab_news], kw)
    /\ length kw = 1
    /\ load_config SampleRun.compile (Some SampleRun.no_keys) = inr ([], []).
Proof.
  exists [Sample.keyword (lit "qPCR")]. split; [|split; [reflexivity|]].
  - apply (proj2 (load_config_ok SampleRun.compile SampleRun.sources
                    [Sample.lab_news] [Sample.keyword (lit "qPCR")])).
    split; [reflexivity|]. constructor; [reflexivity | constructor].
  - apply (proj2 (load_config_ok SampleRun.compile SampleRun.no_keys [] [])).
    split; [reflexivity | constructor].
Defined.

(** X17. A keyword that [re.compile] refuses makes [load_config] fail on
    the first such keyword, whatever the feeds are; an empty document
    fails as well, for [None] has no [get]. *)
Theorem load_config_fails (compile : str -> option Pattern) (cfg : Yaml)
    (good : list str) (bad : str) (rest : list str) :
  y_keywords cfg = Some (good ++ bad :: rest) ->
  Forall (fun k => compile k <> None) good ->
  compile bad = None ->
  load_config compile (Some cfg) = inl (BadPattern bad)
  /\ load_config compile None = inl NoneHasNoGet.
Proof.
  intros Hk Hgood Hbad. split; [|reflexivity].
  unfold load_config. rewrite Hk. simpl.
  assert (E : compile_all compile (good ++ bad :: rest) = inl (BadPattern bad)).
  { clear Hk. induction Hgood as [|k good Hk _ IH]; simpl.
    - now rewrite Hbad.
    - destruct (compile k); [|congruence]. now rewrite IH. }
  now rewrite E.
Qed.

Lemma load_config_fails_witness :
  load_config SampleRun.compile
    (Some {| y_keywords := Some [lit "qPCR"; lit "ELISA("; lit "x"];
             y_feeds := Some [Sample.lab_news] |})
  = inl (BadPattern (lit "ELISA(")).
Proof.
  apply (@load_config_fails SampleRun.compile
           {| y_keywords := Some [lit "qPCR"; lit "ELISA("; lit "x"];
              y_feeds := Some [Sample.lab_news] |}
           [lit "qPCR"] (lit "ELISA(") [lit "x"]).
  - reflexivity.
  - constructor; [vm_compute; discriminate | constructor].
  - vm_compute. reflexivity.
Defined.

(* ===================================================================== *)
(** ** The script and its files *)
(* ===================================================================== *)

Lemma digits_encodable (u : Decimal.uint) : forallb encodable (digits u) = true.
Proof. induction u; simpl; trivial. Qed.

Lemma zero_pad_encodable (width n : nat) :
  forallb encodable (zero_pad width n) = true.
Proof.
  unfold zero_pad, str_of_nat. rewrite forallb_app, digits_encodable, andb_true_r.
  induction (width - length (digits (Nat.to_uint n))) as [|k IH]; simpl; trivial.
Qed.

Lemma isoformat_encodable (d : Date) : forallb encodable (isoformat d) = true.
Proof.
  unfold isoformat. now rewrite !forallb_app, !zero_pad_encodable.
Qed.

(** The digest without items can always be written. *)
Lemma empty_digest_encodable (d : Date) :
  forallb encodable (render_digest (isoformat d) []) = true.
Proof.
  unfold render_digest, heading.
  now rewrite !forallb_app, isoformat_encodable.
Qed.

Lemma write_text_ok (name text : str) (w : World) :
  forallb encodable text = true ->
  write_text name text w
  = (write_digest name text (write_digest name (lit "") w), Ok tt).
Proof.
  intros H. unfold write_text.
  pose proof (encode_cases text) as E. rewrite H in E.
  destruct E as [bs ->]. reflexivity.
Qed.

Section Files.

Variable unescape : str -> str.
Variable parse : str -> list Entry.
Variable compile : str -> option Pattern.

(** A run that ends well, in terms of [main]. *)
Lemma script_done (date : Date) (doc : option Yaml) (w w' : World) :
  script unescape parse compile date doc w = (w', Done) ->
  exists feeds kw o,
    load_config compile doc = inr (feeds, kw)
    /\ main unescape parse (isoformat date) feeds kw (seen_json w) = Ok o
    /\ seen_json w' = saved o
    /\ digests w' (isoformat date ++ lit ".md") = Some (digest_md o)
    /\ (forall name, name <> isoformat date ++ lit ".md" ->
          digests w' name = digests w name).
Proof.
  unfold script, write_text.
  destruct (load_config compile doc) as [e | [feeds kw]]; [discriminate|].
  simpl seen_json.
  destruct (main unescape parse (isoformat date) feeds kw (seen_json w))
    as [o|] eqn:Em; [|discriminate].
  destruct (encode (digest_md o)); [|discriminate].
  intros E. injection E as <-.
  exists feeds, kw, o. simpl. rewrite str_eqb_refl.
  repeat split; trivial.
  intros name Hne. apply str_eqb_neq in Hne. now rewrite Hne.
Qed.

Lemma cap_short (seen : Seen) :
  (Z.of_nat (length (hashes (cap seen))) < max_len seen)%Z ->
  (Z.of_nat (length (hashes seen)) <= max_len seen)%Z.
Proof.
  intros H.
  destruct (Z.leb_spec (Z.of_nat (length (hashes seen))) (max_len seen))
    as [Hle | Hgt]; [exact Hle|].
  rewrite cap_hashes, length_skipn in H by lia. lia.
Qed.

End Files.

(** X18. What a run that does not end well leaves behind. It never touches
    the seen file, the README, the printed lines or the digest of another
    date, and the digest directory has been made. When the configuration
    cannot be loaded nothing else is done; when a fingerprint cannot be
    computed the data directory has been made too and no file is written;
    when the text of the digest cannot be encoded the digest of the day is
    left as an empty file, and the seen list of the run is not saved. *)
Theorem script_failure_effects
    (unescape : str -> str) (parse : str -> list Entry)
    (compile : str -> option Pattern) (date : Date) (doc : option Yaml)
    (w w' : World) (e : Exit) :
  script unescape parse compile date doc w = (w', e) ->
  e <> Done ->
  digest_dir w' = true
  /\ seen_json w' = seen_json w
  /\ readme w' = readme w
  /\ stdout w' = stdout w
  /\ (forall name, name <> isoformat date ++ lit ".md" ->
        digests w' name = digests w name)
  /\ match e with
     | Done => False
     | ConfigFailed _ =>
         data_dir w' = data_dir w
         /\ digests w' (isoformat date ++ lit ".md")
            = digests w (isoformat date ++ lit ".md")
     | Raised _ =>
         data_dir w' = true
         /\ digests w' (isoformat date ++ lit ".md")
            = digests w (isoformat date ++ lit ".md")
     | WriteFailed x =>
         x = UnicodeEncodeError
         /\ data_dir w' = true
         /\ digests w' (isoformat date ++ lit ".md") = Some (lit "")
     end.
Proof.
  unfold script, write_text.
  destruct (load_config compile doc) as [err | [feeds kw]].
  - intros E _. injection E as <- <-. simpl. repeat split.
  - simpl seen_json.
    destruct (main unescape parse (isoformat date) feeds kw (seen_json w))
      as [o | x].
    + pose proof (encode_cases (digest_md o)) as Hen.
      destruct (encode (digest_md o)) as [bs | x] eqn:Een.
      * intros E Hne. injection E as _ <-. congruence.
      * intros E _. injection E as <- <-. simpl. rewrite str_eqb_refl.
        repeat split.
        -- intros name Hne. apply str_eqb_neq in Hne. now rewrite Hne.
        -- destruct (forallb encodable (digest_md o));
             [destruct Hen; discriminate | congruence].
    + intros E _. injection E as <- <-. simpl. repeat split.
Qed.

Lemma script_failure_effects_witness :
  exists w1 w2,
    script Sample.no_entities SampleRun.surrogate_entry SampleRun.compile
      SampleRun.new_year (Some SampleRun.sources) SampleRun.nothing
      = (w1, Raised UnicodeEncodeError)
    /\ data_dir w1 = true
    /\ digests w1 (lit "2024-01-01.md") = None
    /\ script Sample.no_entities SampleRun.surrogate_summary SampleRun.compile
         SampleRun.new_year (Some SampleRun.sources) SampleRun.nothing
         = (w2, WriteFailed UnicodeEncodeError)
    /\ digests w2 (lit "2024-01-01.md") = Some (lit "")
    /\ seen_json w2 = None.
Proof.
  set (r1 := script Sample.no_entities SampleRun.surrogate_entry
               SampleRun.compile SampleRun.new_year (Some SampleRun.sources)
               SampleRun.nothing).
  set (r2 := script Sample.no_entities SampleRun.surrogate_summary
               SampleRun.compile SampleRun.new_year (Some SampleRun.sources)
               SampleRun.nothing).
  assert (H1 : snd r1 = Raised UnicodeEncodeError) by (vm_compute; reflexivity).
  assert (H2 : snd r2 = WriteFailed UnicodeEncodeError)
    by (vm_compute; reflexivity).
  assert (E1 : r1 = (fst r1, Raised UnicodeEncodeError))
    by (rewrite <- H1; now destruct r1).
  assert (E2 : r2 = (fst r2, WriteFailed UnicodeEncodeError))
    by (rewrite <- H2; now destruct r2).
  destruct (script_failure_effects _ _ _ _ _ _ E1)
    as (_ & _ & _ & _ & _ & Hd1 & Hf1); [discriminate|].
  destruct (script_failure_effects _ _ _ _ _ _ E2)
    as (_ & Hs2 & _ & _ & _ & _ & _ & Hf2); [discriminate|].
  exists (fst r1), (fst r2).
  split; [exact E1|]. split; [exact Hd1|]. split; [exact Hf1|].
  split; [exact E2|]. split; [exact Hf2 | exact Hs2].
Defined.

(** X19. Running again replaces the digest by an empty one: after a run
    that ended well and left a seen list shorter than [max_len], a second
    run over the same feeds ends well, writes the digest without items
    under its date (over the digest of the first run when the date is the
    same) and leaves the seen file as it is. *)
Theorem script_rerun_empties_digest
    (unescape : str -> str) (parse : str -> list Entry)
    (compile : str -> option Pattern) (today today' : Date)
    (doc : option Yaml) (w w1 : World) (state : Seen) :
  script unescape parse compile today doc w = (w1, Done) ->
  seen_json w1 = Some state ->
  (Z.of_nat (length (hashes state)) < max_len state)%Z ->
  exists w2,
    script unescape parse compile today' doc w1 = (w2, Done)
    /\ digests w2 (isoformat today' ++ lit ".md")
       = Some (empty_digest (isoformat today'))
    /\ seen_json w2 = seen_json w1.
Proof.
  intros Hrun Hstate Hshort.
  destruct (script_done _ _ _ _ _ _ Hrun)
    as (feeds & kw & o & Hcfg & Hmain & Hseen & _ & _).
  destruct (main_ok _ _ _ _ _ _ Hmain) as (c & hs' & Hc & Ho).
  assert (Hfit : (Z.of_nat (length (hashes (load_seen (seen_json w)))
                            + length (collected_items o))
                  <= max_len (load_seen (seen_json w)))%Z).
  { destruct (collect_extends _ _ _ _ _ Hc) as (new & fps & Hnew & Hfps & F).
    simpl in Hnew, Hfps. apply Forall2_length in F.
    rewrite Hseen, Ho in Hstate. simpl in Hstate. injection Hstate as <-.
    rewrite cap_max_len in Hshort. simpl max_len in Hshort.
    apply (cap_short {| hashes := hs'; max_len := max_len (load_seen (seen_json w)) |})
      in Hshort.
    simpl in Hshort. rewrite Ho. simpl. subst c hs'.
    rewrite length_app in Hshort. lia. }
  pose proof (@main_again unescape parse (isoformat today) (isoformat today')
                feeds kw (seen_json w) o Hmain Hfit) as Hagain.
  unfold script. rewrite Hcfg. simpl seen_json. rewrite Hseen, Hagain.
  cbn [digest_md]. rewrite write_text_ok by apply empty_digest_encodable.
  eexists. split; [reflexivity|]. simpl. rewrite str_eqb_refl.
  split; reflexivity.
Qed.

Lemma script_rerun_empties_digest_witness :
  exists w1 w2,
    script Sample.no_entities Sample.two_entries SampleRun.compile
      SampleRun.new_year (Some SampleRun.sources) SampleRun.nothing = (w1, Done)
    /\ stdout w1 = [lit "Wrote digest for 2024-01-01 with 1 items."]
    /\ script Sample.no_entities Sample.two_entries SampleRun.compile
         SampleRun.new_year (Some SampleRun.sources) w1 = (w2, Done)
    /\ digests w2 (lit "2024-01-01.md") = Some (empty_digest (lit "2024-01-01")).
Proof.
  set (r := script Sample.no_entities Sample.two_entries SampleRun.compile
              SampleRun.new_year (Some SampleRun.sources) SampleRun.nothing).
  assert (Hd : snd r = Done) by (vm_compute; reflexivity).
  assert (Hs : seen_json (fst r) =
               Some {| hashes := [lit "fe6581f096947fbd60c1c8e7e08b2aa706108c56cef2807d5110ef2dd01a6950"];
                       max_len := 2000 |})
    by (vm_compute; reflexivity).
  assert (Ho : stdout (fst r) = [lit "Wrote digest for 2024-01-01 with 1 items."])
    by (vm_compute; reflexivity).
  assert (E : r = (fst r, Done)) by (rewrite <- Hd; now destruct r).
  assert (Hshort : (Z.of_nat (length (hashes
             {| hashes := [lit "fe6581f096947fbd60c1c8e7e08b2aa706108c56cef2807d5110ef2dd01a6950"];
                max_len := 2000 |}))
           < max_len {| hashes := [lit "fe6581f096947fbd60c1c8e7e08b2aa706108c56cef2807d5110ef2dd01a6950"];
                        max_len := 2000 |})%Z) by (simpl; lia).
  destruct (@script_rerun_empties_digest _ _ _ _ SampleRun.new_year _ _ _ _
              E Hs Hshort) as (w2 & H2 & Hd2 & _).
  exists (fst r), w2.
  split; [exact E|]. split; [exact Ho|]. split; [exact H2 | exact Hd2].
Defined.

(** X20. A configuration without feeds still gives a run that ends well:
    the digest of the day is the one without items, the seen list is
    written back (made, with its default cap of 2000, when there was no
    file) and the line printed counts 0 items. *)
Theorem script_without_feeds
    (unescape : str -> str) (parse : str -> list Entry)
    (compile : str -> option Pattern) (today : Date) (cfg : Yaml)
    (kw : list Pattern) (w : World) :
  dict_get (y_feeds cfg) [] = [] ->
  Forall2 (fun k p => compile k = Some p) (dict_get (y_keywords cfg) []) kw ->
  exists w',
    script unescape parse compile today (Some cfg) w = (w', Done)
    /\ digests w' (isoformat today ++ lit ".md")
       = Some (empty_digest (isoformat today))
    /\ seen_json w' = Some (cap (load_seen (seen_json w)))
    /\ stdout w' = stdout w
          ++ [lit "Wrote digest for " ++ isoformat today ++ lit " with 0 items."].
Proof.
  intros Hfeeds Hkw. apply compile_all_ok in Hkw.
  unfold script, load_config. rewrite Hkw, Hfeeds.
  unfold main, collect. simpl foldM. simpl bind. cbn [digest_md].
  rewrite write_text_ok by apply empty_digest_encodable.
  eexists. split; [reflexivity|]. simpl. rewrite str_eqb_refl.
  repeat split. now destruct (load_seen (seen_json w)).
Qed.

Lemma script_without_feeds_witness :
  exists w',
    script Sample.no_entities Sample.two_entries SampleRun.compile
      SampleRun.new_year (Some SampleRun.no_keys) SampleRun.nothing = (w', Done)
    /\ seen_json w' = Some {| hashes := []; max_len := 2000 |}
    /\ stdout w' = [lit "Wrote digest for 2024-01-01 with 0 items."].
Proof.
  destruct (@script_without_feeds Sample.no_entities Sample.two_entries
              SampleRun.compile SampleRun.new_year SampleRun.no_keys []
              SampleRun.nothing eq_refl (Forall2_nil _))
    as (w' & Hrun & _ & Hseen & Hout).
  exists w'. split; [exact Hrun|]. split; [exact Hseen | exact Hout].
Defined.
